(** * Certificate of Civic Negligence: region matcher and capture orchestrator

    A shallow embedding of [src/app/page.tsx]: the decorative-imagery
    catalog [CM_DATA], the two region-matching functions [getCMImageUrl] and
    [getCMImageUrl2], and the handlers of [PotholeCertificateApp] that drive
    the capture flow.

    Conventions of the embedding.
    - A JavaScript string is its sequence of code units; the code units are
      those of the Latin-1 range (one [ascii] each), which covers every
      catalog key and all the text the handlers produce.
    - A value of type [string | null | undefined] is a [nullable string].
    - A [Set<string>] is a [gset string]: the code only reads [size] and
      [has] of its sets, never their iteration order.
    - The similarity score [intersection.size / union.size] is the quotient
      of two small naturals; it is kept as a rational.  A catalog key has at
      most three words, so a score is a quotient [i/u] with [i <= 3].
      Division of doubles is correctly rounded, hence monotone, and two such
      quotients that differ do so by a relative amount of at least
      [1/(3u)], far above the relative spacing [2^-52] of doubles for any
      number [u] of words a string can hold; so comparing the rationals
      agrees with comparing the doubles.  The literal [0.4] denotes the
      double nearest to 2/5, which is the rounding of 2/5 itself.
    - The component [PotholeCertificateApp] is a state record, one field
      per hook and ref, and a transition function on events: the clicks the
      page offers and the completions of the asynchronous calls the flow is
      suspended on. *)

From Stdlib Require Import Ascii String QArith.
From stdpp Require Import gmap strings list.

Local Open Scope string_scope.

(** ** JavaScript values and built-ins used by the source *)

Module JS.

Inductive nullable (A : Type) : Type :=
| null : nullable A
| undefined : nullable A
| value : A -> nullable A.
Arguments null {A}.
Arguments undefined {A}.
Arguments value {A} _.

(** Truthiness of a string: the empty string is falsy. *)
Definition truthy (s : string) : bool :=
  match s with
  | EmptyString => false
  | String _ _ => true
  end.

(** [a || b] on values of type [string | null]. *)
Definition or_else (a b : option string) : option string :=
  match a with
  | Some s => if truthy s then a else b
  | None => b
  end.

Definition code (c : ascii) : N := N_of_ascii c.

(** White space and line terminators of the Latin-1 range: the characters
    removed by [trim] and matched by the class [\s]. *)
Definition isWhiteSpace (c : ascii) : bool :=
  let n := code c in
  ((9 <=? n) && (n <=? 13) || (n =? 32) || (n =? 160))%N.

Definition isLowerAlpha (c : ascii) : bool :=
  let n := code c in ((97 <=? n) && (n <=? 122))%N.

Definition lowerChar (c : ascii) : ascii :=
  let n := code c in
  if ((65 <=? n) && (n <=? 90)
      || (192 <=? n) && (n <=? 222) && negb (n =? 215))%N
  then ascii_of_N (n + 32)
  else c.

(** [s.toLowerCase()] *)
Fixpoint toLowerCase (s : string) : string :=
  match s with
  | EmptyString => EmptyString
  | String c r => String (lowerChar c) (toLowerCase r)
  end.

(** [s.replace(/&/g, "and")] *)
Fixpoint replaceAmp (s : string) : string :=
  match s with
  | EmptyString => EmptyString
  | String c r =>
      if (code c =? 38)%N then String "a" (String "n" (String "d" (replaceAmp r)))
      else String c (replaceAmp r)
  end.

(** [s.replace(/[^a-z\s]/g, "")] *)
Fixpoint stripNonAlpha (s : string) : string :=
  match s with
  | EmptyString => EmptyString
  | String c r =>
      if isLowerAlpha c || isWhiteSpace c then String c (stripNonAlpha r)
      else stripNonAlpha r
  end.

Fixpoint trimStart (s : string) : string :=
  match s with
  | EmptyString => EmptyString
  | String c r => if isWhiteSpace c then trimStart r else s
  end.

Fixpoint trimEnd (s : string) : string :=
  match s with
  | EmptyString => EmptyString
  | String c r =>
      match trimEnd r with
      | EmptyString => if isWhiteSpace c then EmptyString else String c EmptyString
      | r' => String c r'
      end
  end.

(** [s.trim()] *)
Definition trim (s : string) : string := trimEnd (trimStart s).

(** [s.includes(sub)] *)
Fixpoint includes (s sub : string) : bool :=
  String.prefix sub s ||
  match s with
  | EmptyString => false
  | String _ r => includes r sub
  end.

(** [s.split(/\s+/)]: the pieces between maximal runs of white space; the
    flag tells whether the previous character belonged to such a run. *)
Fixpoint splitWs (inRun : bool) (s : string) : list string :=
  match s with
  | EmptyString => [EmptyString]
  | String c r =>
      if isWhiteSpace c then
        if inRun then splitWs true r else EmptyString :: splitWs true r
      else
        match splitWs false r with
        | [] => [String c EmptyString]
        | w :: ws => String c w :: ws
        end
  end.

Definition split_ws (s : string) : list string := splitWs false s.

(** *** Notions used to state facts about the built-ins *)

Definition nonEmpty (w : string) : bool := negb (String.eqb w "").

(** Strings made of white space only. *)
Fixpoint allWhiteSpace (s : string) : bool :=
  match s with
  | EmptyString => true
  | String c r => isWhiteSpace c && allWhiteSpace r
  end.

(** A filter on the characters of a string. *)
Fixpoint filterChars (keep : ascii -> bool) (s : string) : string :=
  match s with
  | EmptyString => EmptyString
  | String c r =>
      if keep c then String c (filterChars keep r) else filterChars keep r
  end.

(** Two piece lists that agree on their first piece and on the words among
    the other pieces. *)
Definition samePieces (l l' : list string) : Prop :=
  match l, l' with
  | w :: ws, w' :: ws' => w = w' /\ List.filter nonEmpty ws = List.filter nonEmpty ws'
  | _, _ => False
  end.

End JS.
Export JS.

(** ** Region matcher *)

Module Matcher.

(** An object literal used as a map: its entries in insertion order, which
    is the order [Object.keys] enumerates them in. *)
Definition Catalog : Type := list (string * string).

(** [CM_DATA], lines 343-404. *)
Definition CM_DATA : Catalog :=
  [
    ("Andhra Pradesh",
     "https://upload.wikimedia.org/wikipedia/commons/a/a8/The_portrait_of_CM_Shri_Nara_Chandrababu_Naidu.jpg");
    ("Arunachal Pradesh",
     "https://upload.wikimedia.org/wikipedia/commons/2/2b/Pema_Khandu_in_2018.jpg");
    ("Assam",
     "https://upload.wikimedia.org/wikipedia/commons/thumb/5/54/Himanta_Biswa_Sarma_in_2025.jpg/500px-Himanta_Biswa_Sarma_in_2025.jpg");
    ("Bihar",
     "https://upload.wikimedia.org/wikipedia/commons/thumb/f/fe/Nitish_Kumar_with_JDU_functionaries_%28cropped%29.jpg/500px-Nitish_Kumar_with_JDU_functionaries_%28cropped%29.jpg");
    ("Chhattisgarh",
     "https://upload.wikimedia.org/wikipedia/commons/a/a4/Vishnu_Deo_Sai%2C_Chief_Minister_of_Chhattisgarh.jpg");
    ("Delhi",
     "https://upload.wikimedia.org/wikipedia/commons/7/72/Chief_Minister_of_Delhi%2C_Smt._Rekha_Gupta.jpg");
    ("Goa",
     "https://upload.wikimedia.org/wikipedia/commons/thumb/9/9e/Pramod_Sawant_at_the_inauguration_of_the_Chhatrapati_Shivaji_Maharaj_Chair_in_Goa_University_%28cropped%29.jpg/500px-Pramod_Sawant_at_the_inauguration_of_the_Chhatrapati_Shivaji_Maharaj_Chair_in_Goa_University_%28cropped%29.jpg");
    ("Gujarat",
     "https://upload.wikimedia.org/wikipedia/commons/0/0d/Bhupendra_PAtel_Sanskrit.jpg");
    ("Haryana",
     "https://upload.wikimedia.org/wikipedia/commons/thumb/f/f5/Nayab_Singh_Saini.jpg/500px-Nayab_Singh_Saini.jpg");
    ("Himachal Pradesh",
     "https://upload.wikimedia.org/wikipedia/commons/thumb/b/b0/Sukhvinder_Singh_Sukhu.jpg/500px-Sukhvinder_Singh_Sukhu.jpg");
    ("Jammu & Kashmir",
     "https://upload.wikimedia.org/wikipedia/commons/6/68/Omar_Abdullah%2C_Chief_Minister_of_Jammu_%26_Kashmir.jpg");
    ("Jharkhand",
     "https://upload.wikimedia.org/wikipedia/commons/thumb/6/69/Hemant_Soren_2024.jpg/500px-Hemant_Soren_2024.jpg");
    ("Karnataka",
     "https://upload.wikimedia.org/wikipedia/commons/thumb/a/ac/Siddaramaiah_at_the_function_to_commemorate_the_serving_of_2_billion_meals_of_the_Akshaya_Patra_Foundation_in_Karnataka_%28cropped%29.jpg/419px-Siddaramaiah_at_the_function_to_commemorate_the_serving_of_2_billion_meals_of_the_Akshaya_Patra_Foundation_in_Karnataka_%28cropped%29.jpg");
    ("Kerala",
     "https://upload.wikimedia.org/wikipedia/commons/thumb/4/43/Chief_Minister_Pinarayi_Vijayan_2023.tif/lossy-page1-500px-Chief_Minister_Pinarayi_Vijayan_2023.tif.jpg");
    ("Madhya Pradesh",
     "https://upload.wikimedia.org/wikipedia/commons/5/58/Mohan_Yadav%2C_Chief_Minister_of_Madhya_Pradesh.jpg");
    ("Maharashtra",
     "https://upload.wikimedia.org/wikipedia/commons/thumb/b/b3/Devendra_Fadnavis_%40Vidhan_Sabha_04-03-2021.jpg/500px-Devendra_Fadnavis_%40Vidhan_Sabha_04-03-2021.jpg");
    ("Manipur",
     "");
    ("Meghalaya",
     "https://upload.wikimedia.org/wikipedia/commons/thumb/8/88/The_Chief_Minister_of_Meghalaya%2C_Shri_Conrad_Sangma.JPG/500px-The_Chief_Minister_of_Meghalaya%2C_Shri_Conrad_Sangma.JPG");
    ("Mizoram",
     "https://upload.wikimedia.org/wikipedia/commons/thumb/2/28/Lalduhawma1.jpg/500px-Lalduhawma1.jpg");
    ("Nagaland",
     "https://upload.wikimedia.org/wikipedia/commons/thumb/f/f5/NeiphiuRio.jpg/500px-NeiphiuRio.jpg");
    ("Odisha",
     "https://upload.wikimedia.org/wikipedia/commons/thumb/0/0c/%E0%AC%B6%E0%AD%8D%E0%AC%B0%E0%AD%80_%E0%AC%AE%E0%AD%8B%E0%AC%B9%E0%AC%A8_%E0%AC%9A%E0%AC%B0%E0%AC%A3_%E0%AC%AE%E0%AC%BE%E0%AC%9D%E0%AD%80.jpg/500px-%E0%AC%B6%E0%AD%8D%E0%AC%B0%E0%AD%80_%E0%AC%AE%E0%AD%8B%E0%AC%B9%E0%AC%A8_%E0%AC%9A%E0%AC%B0%E0%AC%A3_%E0%AC%AE%E0%AC%BE%E0%AC%9D%E0%AD%80.jpg");
    ("Puducherry",
     "https://upload.wikimedia.org/wikipedia/commons/0/08/N._Rangaswami.jpg");
    ("Punjab",
     "https://upload.wikimedia.org/wikipedia/commons/f/f8/Bhagwant_Mann.png");
    ("Rajasthan",
     "https://upload.wikimedia.org/wikipedia/commons/a/aa/Bhajan_Lal_Sharma.jpg");
    ("Sikkim",
     "https://upload.wikimedia.org/wikipedia/commons/7/72/Prem_Singh_Tamang%2C_Chief_Minister_of_Sikkim.jpg");
    ("Tamil Nadu",
     "https://upload.wikimedia.org/wikipedia/commons/thumb/4/4a/The_Chief_Minister_of_Tamil_Nadu%2C_Thiru_MK_Stalin.jpeg/500px-The_Chief_Minister_of_Tamil_Nadu%2C_Thiru_MK_Stalin.jpeg");
    ("Telangana",
     "https://upload.wikimedia.org/wikipedia/commons/thumb/c/c0/Portrait_of_Telangana_CM_Revanth_Reddy.png/500px-Portrait_of_Telangana_CM_Revanth_Reddy.png");
    ("Tripura",
     "https://upload.wikimedia.org/wikipedia/commons/thumb/a/aa/Manik_Saha_Official_Portrait_2023.jpg/500px-Manik_Saha_Official_Portrait_2023.jpg");
    ("Uttar Pradesh",
     "https://upload.wikimedia.org/wikipedia/commons/thumb/1/12/PM_and_UP_CM_at_laying_the_foundation_stone_of_the_International_Cricket_Stadium_at_Varanasi%2C_in_Uttar_Pradesh_%283x4_cropped%29.jpg/500px-PM_and_UP_CM_at_laying_the_foundation_stone_of_the_International_Cricket_Stadium_at_Varanasi%2C_in_Uttar_Pradesh_%283x4_cropped%29.jpg");
    ("Uttarakhand",
     "https://upload.wikimedia.org/wikipedia/commons/9/95/Pushkar_Singh_Dhami%2C_Chief_Minister_of_Uttarakhand.jpg");
    ("West Bengal",
     "https://upload.wikimedia.org/wikipedia/commons/thumb/4/4d/Official_portrait_of_Mamata_Banerjee.jpg/500px-Official_portrait_of_Mamata_Banerjee.jpg")
  ].

(** [Object.keys(catalog)] *)
Definition keysOf (catalog : Catalog) : list string := map fst catalog.

(** [catalog[key]]; [None] stands for [undefined]. *)
Fixpoint lookup (catalog : Catalog) (key : string) : option string :=
  match catalog with
  | [] => None
  | (k, img) :: rest => if String.eqb k key then Some img else lookup rest key
  end.

(** [key && catalog[key]], where [key] is the result of [Array.find]: the
    value is [undefined] when no key was found, the key itself when it is
    the empty string, the catalog entry otherwise. *)
Definition andLookup (catalog : Catalog) (key : option string) : option string :=
  match key with
  | None => None
  | Some k => if truthy k then lookup catalog k else Some k
  end.

(** [if (img) { return img; }]: the image when it is truthy. *)
Definition usable (img : option string) : option string :=
  match img with
  | Some s => if truthy s then Some s else None
  | None => None
  end.

(** [s.toLowerCase().replace(/&/g, "and").trim()], lines 582, 586 and 597. *)
Definition normalizeName (s : string) : string :=
  trim (replaceAmp (toLowerCase s)).

(** The helper [normalizeAndTokenize] of lines 621-628. *)
Definition normalizeAndTokenize (str : string) : gset string :=
  let normalized := trim (stripNonAlpha (replaceAmp (toLowerCase str))) in
  list_to_set
    (List.filter (fun word => (0 <? String.length word)%nat) (split_ws normalized)).

(** Lines 648-657: the Jaccard similarity of two word sets. *)
Definition jaccard (stateWords keyWords : gset string) : Q :=
  let intersection := filter (fun word => word ∈ keyWords) stateWords in
  let union := stateWords ∪ keyWords in
  Z.of_nat (size intersection) # Pos.of_nat (size union).

Definition Qlt_bool (x y : Q) : bool := negb (Qle_bool y x).

(** The score the loop computes for a key. *)
Definition scoreOf (stateWords : gset string) (k : string) : Q :=
  jaccard stateWords (normalizeAndTokenize k).

Record BestMatch : Type := mkBest { key : string; score : Q }.

Definition SIMILARITY_THRESHOLD : Q := 4 # 10.

Section WithCatalog.

Variable catalog : Catalog.

(** Lines 584-587: the predicate of the first [find]. *)
Definition isExactMatch (normalizedState key : string) : bool :=
  String.eqb (normalizeName key) normalizedState.

(** Lines 596-603: the predicate of the second [find]. *)
Definition isPartialMatch (normalizedState key : string) : bool :=
  let normalizedKey := normalizeName key in
  includes normalizedKey normalizedState || includes normalizedState normalizedKey.

(** [getCMImageUrl], lines 575-612. *)
Definition getCMImageUrl_in (state : nullable string) : option string :=
  let placeholder : option string := None in
  match state with
  | null | undefined => placeholder
  | value state =>
      if negb (truthy state) then placeholder
      else
        let normalizedState := normalizeName state in
        let exactMatchKey := find (isExactMatch normalizedState) (keysOf catalog) in
        let img := andLookup catalog exactMatchKey in
        match usable img with
        | Some img => Some img
        | None =>
            let partialMatchKey :=
              find (isPartialMatch normalizedState) (keysOf catalog) in
            let img2 := andLookup catalog partialMatchKey in
            match usable img2 with
            | Some img2 => Some img2
            | None => placeholder
            end
        end
  end.

(** One iteration of the loop of lines 641-663. *)
Definition considerKey (stateWords : gset string) (bestMatch : BestMatch)
    (k : string) : BestMatch :=
  let keyWords := normalizeAndTokenize k in
  if (size keyWords =? 0)%nat then bestMatch
  else
    let sc := jaccard stateWords keyWords in
    if Qlt_bool (score bestMatch) sc then mkBest k sc else bestMatch.

(** The loop of lines 635-663, run over a list of keys. *)
Definition bestMatchOver (stateWords : gset string) (ks : list string) : BestMatch :=
  fold_left (considerKey stateWords) ks (mkBest "" 0).

(** [getCMImageUrl2], lines 614-677. *)
Definition getCMImageUrl2_in (state : nullable string) : option string :=
  let placeholder : option string := None in
  match state with
  | null | undefined => placeholder
  | value state =>
      if negb (truthy state) then placeholder
      else
        let stateWords := normalizeAndTokenize state in
        if (size stateWords =? 0)%nat then placeholder
        else
          let bestMatch := bestMatchOver stateWords (keysOf catalog) in
          let img :=
            if Qle_bool SIMILARITY_THRESHOLD (score bestMatch)
            then lookup catalog (key bestMatch)
            else None in
          match usable img with
          | Some img => Some img
          | None => placeholder
          end
  end.

(** Line 747: [getCMImageUrl(state) || getCMImageUrl2(state)]. *)
Definition imgUrl_in (state : nullable string) : option string :=
  or_else (getCMImageUrl_in state) (getCMImageUrl2_in state).

End WithCatalog.

Definition getCMImageUrl : nullable string -> option string :=
  getCMImageUrl_in CM_DATA.
Definition getCMImageUrl2 : nullable string -> option string :=
  getCMImageUrl2_in CM_DATA.
Definition imgUrl : nullable string -> option string := imgUrl_in CM_DATA.

End Matcher.
Export Matcher.

(** ** The region matcher as the specification words it

    Section 4.2 of the specification, written down step by step and
    independently of the two source functions: one algorithm with three
    tiers.  "Alphabetic" is read as the letters [a]-[z] and "spaces" as the
    white space on which step 5 splits, the classes that steps 2 and 5 leave
    in a normalized name. *)

Module ThreeTier.

(** Step 2: lowercase, "&" collapsed to "and", white space trimmed. *)
Definition normalize_spec (s : string) : string :=
  trim (replaceAmp (toLowerCase s)).

(** Step 5: the set of words of a normalized name. *)
Definition wordSet_spec (normalized : string) : gset string :=
  list_to_set
    (List.filter (fun w => negb (String.eqb w ""))
       (split_ws (stripNonAlpha normalized))).

(** Step 5: intersection size divided by union size. *)
Definition similarity_spec (a b : gset string) : Q :=
  Z.of_nat (size (a ∩ b)) # Pos.of_nat (size (a ∪ b)).

(** Steps 5 and 6: the entry of highest score, the first one among equals. *)
Fixpoint firstBest_spec (words : gset string) (entries : list (string * string))
    : option ((string * string) * Q) :=
  match entries with
  | [] => None
  | entry :: rest =>
      let sc := similarity_spec words (wordSet_spec (normalize_spec (fst entry))) in
      match firstBest_spec words rest with
      | Some (later, sc') =>
          if Qle_bool sc' sc then Some (entry, sc) else Some (later, sc')
      | None => Some (entry, sc)
      end
  end.

Section WithCatalog.

Variable catalog : list (string * string).

(** Step 3: the first entry whose normalized key equals the input. *)
Definition exactPass_spec (normalized : string) : option (string * string) :=
  find (fun entry => String.eqb (normalize_spec (fst entry)) normalized) catalog.

(** Step 4: the first entry whose normalized key is a substring of the
    input, or the input a substring of the key. *)
Definition substringPass_spec (normalized : string) : option (string * string) :=
  find (fun entry =>
          includes normalized (normalize_spec (fst entry))
          || includes (normalize_spec (fst entry)) normalized) catalog.

(** Step 5: the best entry is accepted when its score is at least 0.4. *)
Definition tokenPass_spec (normalized : string) : option string :=
  match firstBest_spec (wordSet_spec normalized) catalog with
  | Some (entry, sc) => if Qle_bool (2 # 5) sc then Some (snd entry) else None
  | None => None
  end.

(** A pass found something usable when its entry has non-empty imagery. *)
Definition usableImagery (found : option (string * string)) : option string :=
  match found with
  | Some (_, imagery) => if String.eqb imagery "" then None else Some imagery
  | None => None
  end.

(** Steps 1 to 5; [None] is "no match". *)
Definition regionMatcher_spec (input : nullable string) : option string :=
  match input with
  | null | undefined => None
  | value s =>
      if String.eqb s "" then None
      else
        let normalized := normalize_spec s in
        match usableImagery (exactPass_spec normalized) with
        | Some imagery => Some imagery
        | None =>
            match usableImagery (substringPass_spec normalized) with
            | Some imagery => Some imagery
            | None => tokenPass_spec normalized
            end
        end
  end.

End WithCatalog.

End ThreeTier.
Export ThreeTier.

(** ** Capture orchestrator *)

Module Orchestrator.

(** [AppStep], line 10. *)
Inductive AppStep : Type :=
| initial | selectIssue | capture | generating | result.

(** [LocationState], lines 5-9; the coordinates are carried along
    unexamined. *)
Record LocationState : Type := mkLocation {
  latitude : Q;
  longitude : Q;
  address : string
}.

(** [issueTypes], lines 12-18. *)
Definition issueTypes : list string :=
  ["Pothole"; "Waterlogging"; "Garbage Dump"; "Broken Streetlight"; "Other"].

(** A camera stream handed out by [getUserMedia]. *)
Definition MediaStream : Type := nat.

(** The control point at which the asynchronous part of the flow is
    suspended. *)
Inductive Pending : Type :=
| Quiescent
| AwaitCamera                      (* getUserMedia, line 726 *)
| AwaitPosition                    (* getCurrentPosition, line 735 *)
| AwaitGeocode (lat lon : Q)       (* fetch and response.json, lines 739-742 *)
| AwaitTimer                       (* setTimeout(generateCertificate, 100), line 860 *)
| AwaitRaster.                     (* htmlToImage.toPng, line 816 *)

(** The hooks of lines 681-692, [streamRef] of line 695, the camera streams
    whose tracks have not been stopped, and the suspended continuation. *)
Record State : Type := mkState {
  step : AppStep;
  location : option LocationState;
  error : string;
  capturedImage : option string;
  generatedCertificate : option string;
  loadingMessage : string;
  isSharing : bool;
  issueType : option string;
  cmImageUrl : option string;
  streamRef : option MediaStream;
  liveStreams : list MediaStream;
  pending : Pending
}.

#[global] Instance AppStep_eq_dec : EqDecision AppStep.
Proof. solve_decision. Defined.
#[global] Instance Q_eq_dec : EqDecision Q.
Proof. solve_decision. Defined.
#[global] Instance LocationState_eq_dec : EqDecision LocationState.
Proof. solve_decision. Defined.
#[global] Instance Pending_eq_dec : EqDecision Pending.
Proof. solve_decision. Defined.

Definition initialState : State :=
  mkState initial None "" None None "" false None None None [] Quiescent.

Notation "s |> f" := (f s) (at level 45, left associativity, only parsing).

(** *** State setters *)

Definition setStep (v : AppStep) (s : State) : State :=
  mkState v (location s) (error s) (capturedImage s) (generatedCertificate s)
    (loadingMessage s) (isSharing s) (issueType s) (cmImageUrl s)
    (streamRef s) (liveStreams s) (pending s).
Definition setLocation (v : option LocationState) (s : State) : State :=
  mkState (step s) v (error s) (capturedImage s) (generatedCertificate s)
    (loadingMessage s) (isSharing s) (issueType s) (cmImageUrl s)
    (streamRef s) (liveStreams s) (pending s).
Definition setError (v : string) (s : State) : State :=
  mkState (step s) (location s) v (capturedImage s) (generatedCertificate s)
    (loadingMessage s) (isSharing s) (issueType s) (cmImageUrl s)
    (streamRef s) (liveStreams s) (pending s).
Definition setCapturedImage (v : option string) (s : State) : State :=
  mkState (step s) (location s) (error s) v (generatedCertificate s)
    (loadingMessage s) (isSharing s) (issueType s) (cmImageUrl s)
    (streamRef s) (liveStreams s) (pending s).
Definition setGeneratedCertificate (v : option string) (s : State) : State :=
  mkState (step s) (location s) (error s) (capturedImage s) v
    (loadingMessage s) (isSharing s) (issueType s) (cmImageUrl s)
    (streamRef s) (liveStreams s) (pending s).
Definition setLoadingMessage (v : string) (s : State) : State :=
  mkState (step s) (location s) (error s) (capturedImage s) (generatedCertificate s)
    v (isSharing s) (issueType s) (cmImageUrl s)
    (streamRef s) (liveStreams s) (pending s).
Definition setIsSharing (v : bool) (s : State) : State :=
  mkState (step s) (location s) (error s) (capturedImage s) (generatedCertificate s)
    (loadingMessage s) v (issueType s) (cmImageUrl s)
    (streamRef s) (liveStreams s) (pending s).
Definition setIssueType (v : option string) (s : State) : State :=
  mkState (step s) (location s) (error s) (capturedImage s) (generatedCertificate s)
    (loadingMessage s) (isSharing s) v (cmImageUrl s)
    (streamRef s) (liveStreams s) (pending s).
Definition setCmImageUrl (v : option string) (s : State) : State :=
  mkState (step s) (location s) (error s) (capturedImage s) (generatedCertificate s)
    (loadingMessage s) (isSharing s) (issueType s) v
    (streamRef s) (liveStreams s) (pending s).
Definition setStreamRef (v : option MediaStream) (s : State) : State :=
  mkState (step s) (location s) (error s) (capturedImage s) (generatedCertificate s)
    (loadingMessage s) (isSharing s) (issueType s) (cmImageUrl s)
    v (liveStreams s) (pending s).
Definition setLiveStreams (v : list MediaStream) (s : State) : State :=
  mkState (step s) (location s) (error s) (capturedImage s) (generatedCertificate s)
    (loadingMessage s) (isSharing s) (issueType s) (cmImageUrl s)
    (streamRef s) v (pending s).
Definition await (v : Pending) (s : State) : State :=
  mkState (step s) (location s) (error s) (capturedImage s) (generatedCertificate s)
    (loadingMessage s) (isSharing s) (issueType s) (cmImageUrl s)
    (streamRef s) (liveStreams s) v.

(** Truthiness of a value of type [object | null]. *)
Definition isSome {A : Type} (v : option A) : bool :=
  match v with
  | Some _ => true
  | None => false
  end.

(** Truthiness of a value of type [string | null]. *)
Definition truthyOpt (v : option string) : bool :=
  match v with
  | Some x => truthy x
  | None => false
  end.

(** *** What React has mounted

    [videoRef] is attached to the [<video>] element of lines 988-993, which
    is rendered exactly in the capture step.  [certificateRef] is attached
    to the [<div>] that [CertificateDOM] returns; the component is rendered
    in the generating step only (lines 920-928) and returns [null] at line
    455 unless its three props are truthy. *)
Definition videoRef_current (s : State) : bool :=
  bool_decide (step s = capture).

Definition certificateRef_current (s : State) : bool :=
  bool_decide (step s = generating)
  && negb (negb (isSome (location s)) || negb (truthyOpt (capturedImage s))
           || negb (truthyOpt (issueType s))).

(** *** Handlers *)

(** [track.stop()] for the tracks of one stream. *)
Definition stopTracks (stream : MediaStream) (s : State) : State :=
  s |> setLiveStreams (List.filter (fun x => negb (x =? stream)%nat) (liveStreams s)).

(** [stopCamera], lines 711-716. *)
Definition stopCamera (s : State) : State :=
  match streamRef s with
  | Some stream => s |> stopTracks stream |> setStreamRef None
  | None => s
  end.

(** [startCaptureSequence], lines 718-726: up to the first [await]. *)
Definition startCaptureSequence (type : string) (s : State) : State :=
  s |> setIssueType (Some type)
    |> setError ""
    |> setStep capture
    |> setLoadingMessage "Initializing systems..."
    |> setLoadingMessage "Requesting camera access..."
    |> await AwaitCamera.

(** The [catch] block of lines 785-796; [name] is [err.name]. *)
Definition startCaptureSequence_catch (name : string) (s : State) : State :=
  let errorMessage :=
    if String.eqb name "NotAllowedError"
    then "Camera access was denied. Please grant permission in your browser settings."
    else "Could not access camera. Please check permissions." in
  s |> setError errorMessage
    |> stopCamera
    |> setStep initial
    |> await Quiescent.

(** Lines 729-735: the continuation once [getUserMedia] has resolved.  When
    the browser has no [navigator.geolocation] the call of line 735 throws a
    [TypeError] inside the [try] block. *)
Definition startCaptureSequence_stream (stream : MediaStream)
    (geolocation : bool) (s : State) : State :=
  let s := s |> setStreamRef (Some stream)
             |> setLoadingMessage "Fetching your location..." in
  if geolocation then s |> await AwaitPosition
  else s |> startCaptureSequence_catch "TypeError".

(** Lines 736-741: the success callback up to its first [await]. *)
Definition onPosition (lat lon : Q) (s : State) : State :=
  s |> setLoadingMessage "Pinpointing address..."
    |> await (AwaitGeocode lat lon).

(** Lines 742-756: the success callback once the reverse-geocoding response
    has been parsed; [display_name] and [state] are [data.display_name] and
    [data.address?.state]. *)
Definition onGeocoded (lat lon : Q) (display_name state : nullable string)
    (s : State) : State :=
  let imgUrl := imgUrl state in
  let address :=
    match display_name with
    | value a => if truthy a then a else "Address not found"
    | _ => "Address not found"
    end in
  s |> setCmImageUrl imgUrl
    |> setLocation (Some (mkLocation lat lon address))
    |> setLoadingMessage ""
    |> await Quiescent.

(** Lines 759-773: the message chosen from [err.code]. *)
Definition geolocationErrorMessage (code : Z) : string :=
  if (code =? 1)%Z then
    "Location access was denied. Please grant permission in your browser settings."
  else if (code =? 2)%Z then
    "Location information is unavailable. Please check your network connection or try again."
  else if (code =? 3)%Z then
    "Failed to get your location in time. Please check your network connection and try again."
  else
    "Unable to retrieve your location. Please enable location services in your OS and browser.".

(** Lines 758-778: the error callback of [getCurrentPosition]. *)
Definition onPositionError (code : Z) (s : State) : State :=
  s |> setError (geolocationErrorMessage code)
    |> stopCamera
    |> setStep initial
    |> await Quiescent.

(** [handleCapture], lines 835-855; [context] is [None] when
    [getContext("2d")] returns [null], and otherwise carries the data URL
    that [toDataURL] yields for the drawn frame. *)
Definition handleCapture (context : option string) (s : State) : State :=
  if videoRef_current s then
    let s :=
      match context with
      | Some imageDataUrl => s |> setCapturedImage (Some imageDataUrl)
      | None => s
      end in
    s |> stopCamera |> setStep generating
  else s.

(** [generateCertificate], lines 799-816: up to the [await]. *)
Definition generateCertificate (htmlToImage : bool) (s : State) : State :=
  if negb (certificateRef_current s) then
    s |> setError "Failed to create certificate. Certificate template not found."
      |> setStep initial
      |> await Quiescent
  else if negb htmlToImage then
    s |> setError "Image generation library not loaded yet. Please try again in a moment."
      |> setStep initial
      |> await Quiescent
  else
    s |> setLoadingMessage "Generating high-resolution image..."
      |> await AwaitRaster.

(** Lines 823-825. *)
Definition generateCertificate_resolved (dataUrl : string) (s : State) : State :=
  s |> setGeneratedCertificate (Some dataUrl)
    |> setLoadingMessage ""
    |> setStep result
    |> await Quiescent.

(** The [catch] block of lines 826-832. *)
Definition generateCertificate_rejected (s : State) : State :=
  s |> setError "An error occurred while generating the certificate image. This can happen with certain browsers or network conditions."
    |> setStep initial
    |> await Quiescent.

(** [handleReset], lines 878-886. *)
Definition handleReset (s : State) : State :=
  s |> setStep initial
    |> setLocation None
    |> setError ""
    |> setCapturedImage None
    |> setGeneratedCertificate None
    |> stopCamera
    |> setIssueType None.

(** [handleShare], lines 896-914; the download and the opened window leave
    the state alone. *)
Definition handleShare (s : State) : State :=
  if negb (isSome (location s)) || negb (truthyOpt (generatedCertificate s))
     || isSharing s || negb (truthyOpt (issueType s))
  then s
  else s |> setIsSharing true.

(** The effect of lines 857-862, which React runs after a render in which
    one of [step], [capturedImage] and [location] has changed. *)
Definition generateEffect (s : State) : State :=
  if bool_decide (step s = generating) && truthyOpt (capturedImage s)
     && isSome (location s)
  then s |> await AwaitTimer
  else s.

(** *** Events *)

Inductive Event : Type :=
| ClickReport
| ClickIssue (type : string)
| CameraGranted (stream : MediaStream) (geolocation : bool)
| CameraRejected (name : string)
| PositionFix (lat lon : Q)
| PositionError (code : Z)
| GeocodeResponse (display_name state : nullable string)
| GeocodeFailed
| ClickCapture (context : option string)
| TimerFired (htmlToImage : bool)
| RasterResolved (dataUrl : string)
| RasterRejected
| ClickShare
| ShareTimers
| ClickDownload
| ClickReset.

(** The handler an event runs, when the page offers the event in the state:
    a button must be rendered and enabled (lines 950-1064), a callback must
    be the one the flow is suspended on. *)
Definition handle (s : State) (e : Event) : option State :=
  match e with
  | ClickReport =>
      if bool_decide (step s = initial) then Some (s |> setStep selectIssue)
      else None
  | ClickIssue type =>
      if bool_decide (step s = selectIssue) && bool_decide (type ∈ issueTypes)
      then Some (s |> startCaptureSequence type)
      else None
  | CameraGranted stream geolocation =>
      match pending s with
      | AwaitCamera =>
          Some (s |> setLiveStreams (stream :: liveStreams s)
                  |> startCaptureSequence_stream stream geolocation)
      | _ => None
      end
  | CameraRejected name =>
      match pending s with
      | AwaitCamera => Some (s |> startCaptureSequence_catch name)
      | _ => None
      end
  | PositionFix lat lon =>
      match pending s with
      | AwaitPosition => Some (s |> onPosition lat lon)
      | _ => None
      end
  | PositionError code =>
      match pending s with
      | AwaitPosition => Some (s |> onPositionError code)
      | _ => None
      end
  | GeocodeResponse display_name state =>
      match pending s with
      | AwaitGeocode lat lon => Some (s |> onGeocoded lat lon display_name state)
      | _ => None
      end
  | GeocodeFailed =>
      match pending s with
      | AwaitGeocode _ _ => Some (s |> await Quiescent)
      | _ => None
      end
  | ClickCapture context =>
      if bool_decide (step s = capture) && isSome (location s)
         && negb (truthy (loadingMessage s))
      then Some (s |> handleCapture context)
      else None
  | TimerFired htmlToImage =>
      match pending s with
      | AwaitTimer => Some (s |> generateCertificate htmlToImage)
      | _ => None
      end
  | RasterResolved dataUrl =>
      match pending s with
      | AwaitRaster => Some (s |> generateCertificate_resolved dataUrl)
      | _ => None
      end
  | RasterRejected =>
      match pending s with
      | AwaitRaster => Some (s |> generateCertificate_rejected)
      | _ => None
      end
  | ClickShare =>
      if bool_decide (step s = result) && truthyOpt (generatedCertificate s)
         && negb (isSharing s)
      then Some (s |> handleShare)
      else None
  | ShareTimers =>
      if isSharing s then Some (s |> setIsSharing false) else None
  | ClickDownload =>
      if bool_decide (step s = result) && truthyOpt (generatedCertificate s)
      then Some s
      else None
  | ClickReset =>
      if bool_decide (step s = result) && truthyOpt (generatedCertificate s)
      then Some (s |> handleReset)
      else None
  end.

(** Whether the render after the event sees a changed dependency of the
    effect of lines 857-862; a location object set by [setLocation] is a
    fresh object each time. *)
Definition depsChanged (e : Event) (s s' : State) : bool :=
  bool_decide (step s <> step s')
  || bool_decide (capturedImage s <> capturedImage s')
  || match e with
     | GeocodeResponse _ _ => true
     | _ => bool_decide (location s <> location s')
     end.

(** One event: its handler, then the effects of the render it causes. *)
Definition dispatch (s : State) (e : Event) : option State :=
  match handle s e with
  | Some s' => Some (if depsChanged e s s' then generateEffect s' else s')
  | None => None
  end.

Fixpoint run (s : State) (es : list Event) : option State :=
  match es with
  | [] => Some s
  | e :: es =>
      match dispatch s e with
      | Some s' => run s' es
      | None => None
      end
  end.

Inductive reachable : State -> Prop :=
| reachable_initial : reachable initialState
| reachable_dispatch s e s' :
    reachable s -> dispatch s e = Some s' -> reachable s'.

(** What holds in every state the page can be in. *)
Record Inv (s : State) : Prop := mkInv {
  inv_step_pending :
    match step s, pending s with
    | (initial | selectIssue | result), Quiescent => True
    | capture, (Quiescent | AwaitCamera | AwaitPosition | AwaitGeocode _ _) => True
    | generating, (Quiescent | AwaitTimer | AwaitRaster) => True
    | _, _ => False
    end;
  inv_loading :
    match pending s with
    | AwaitCamera | AwaitPosition | AwaitGeocode _ _ =>
        truthy (loadingMessage s) = true
    | _ => True
    end;
  inv_fields :
    pending s = AwaitRaster \/ step s = result ->
    isSome (location s) = true /\ truthyOpt (capturedImage s) = true
    /\ truthyOpt (issueType s) = true;
  inv_certificate :
    isSome (generatedCertificate s) = bool_decide (step s = result);
  inv_live :
    liveStreams s = match streamRef s with Some stream => [stream] | None => [] end;
  inv_stream :
    match streamRef s with
    | Some _ => step s = capture /\ pending s <> AwaitCamera
    | None => True
    end
}.

(** What holds of the report in every state the page can be in. *)
Record SessionInv (s : State) : Prop := mkSessionInv {
  sinv_error :
    match step s with
    | capture | generating | result => error s = ""
    | _ => True
    end;
  sinv_issue :
    match step s with
    | capture | generating | result =>
        exists type, issueType s = Some type /\ In type issueTypes
    | _ => True
    end;
  sinv_address :
    match location s with
    | Some l => truthy (address l) = true
    | None => True
    end;
  sinv_image :
    match cmImageUrl s with
    | Some url => url <> "" /\ exists k, In (k, url) CM_DATA
    | None => True
    end;
  sinv_ready :
    match step s with
    | capture =>
        match pending s with
        | AwaitPosition | AwaitGeocode _ _ => isSome (streamRef s) = true
        | _ => True
        end
        /\ (truthy (loadingMessage s) = false ->
            isSome (streamRef s) = true /\ isSome (location s) = true
            /\ pending s = Quiescent)
    | _ => True
    end;
  sinv_result : step s = result -> loadingMessage s = ""
}.

(** The arrows of the step diagram: the moves of [setStep] between
    different steps. *)
Definition allowedEdge (from to : AppStep) : bool :=
  match from, to with
  | initial, selectIssue
  | selectIssue, capture
  | capture, initial
  | capture, generating
  | generating, initial
  | generating, result
  | result, initial => true
  | _, _ => false
  end.


(** The states in which the page offers no click and waits for no
    callback or timer. *)
Definition stuck (s : State) : bool :=
  negb (isSharing s)
  && match step s, pending s with
     | capture, Quiescent =>
         negb (isSome (location s)) || truthy (loadingMessage s)
     | generating, Quiescent => true
     | result, Quiescent => negb (truthyOpt (generatedCertificate s))
     | _, _ => false
     end.

(** The failures for which the source has a handler: a rejected camera
    request, a missing geolocation interface, a failed position request, a
    rasterization library that is not loaded, a rejected rasterization. *)
Definition handledFailure (e : Event) : bool :=
  match e with
  | CameraRejected _ | CameraGranted _ false | PositionError _
  | TimerFired false | RasterRejected => true
  | _ => false
  end.

(** A session that runs without failure up to the rasterization. *)
Definition happyPath : list Event :=
  [ClickReport; ClickIssue "Pothole"; CameraGranted 1 true;
   PositionFix (28 # 1) (77 # 1);
   GeocodeResponse (value "123 Main St") (value "Punjab");
   ClickCapture (Some "data:image/jpeg;base64,AAAA"); TimerFired true].

End Orchestrator.
Export Orchestrator.

(** ** Numbers as text, and the issue identifier of the certificate *)

Module IssueId.

(** The character of a decimal digit. *)
Definition digitChar (d : N) : ascii := ascii_of_N (48 + d).

(** The decimal digits of a natural number, most significant first; the
    fuel bounds the number of digits. *)
Fixpoint digitsFuel (fuel : nat) (n : N) : string :=
  match fuel with
  | O => EmptyString
  | S fuel =>
      if (n <? 10)%N then String (digitChar n) EmptyString
      else digitsFuel fuel (n / 10)%N ++ String (digitChar (n mod 10)%N) EmptyString
  end.

(** [n.toString()] for a non-negative integer [n]: a number has no more
    decimal digits than binary ones. *)
Definition toString (n : N) : string := digitsFuel (S (N.size_nat n)) n.

(** [s.slice(start)] for a non-negative [start]. *)
Fixpoint sliceFrom (start : nat) (s : string) : string :=
  match start, s with
  | O, _ => s
  | S _, EmptyString => EmptyString
  | S start, String _ r => sliceFrom start r
  end.

(** [s.slice(-k)]: the slice from [max(length - k, 0)]. *)
Definition sliceLast (k : nat) (s : string) : string :=
  sliceFrom (String.length s - k) s.

(** [uniqueId], line 457, for the time [now] that [Date.now()] returns. *)
Definition uniqueId (now : N) : string := "CN-" ++ sliceLast 6 (toString now).

(** The last [k] decimal digits of a number, with leading zeros. *)
Fixpoint padDigits (k : nat) (m : N) : string :=
  match k with
  | O => EmptyString
  | S k => padDigits k (m / 10)%N ++ String (digitChar (m mod 10)%N) EmptyString
  end.

End IssueId.
Export IssueId.

(** ** The debug console *)

Module DebugConsole.

(** [LogType], line 28. *)
Inductive LogType : Type := Log | Warn | Error.

(** [LogArgument], line 30.  A number carries the text [String] gives it,
    an object what [JSON.stringify(arg, null, 2)] returns for it, or
    [None] when that call throws. *)
Inductive LogArgument : Type :=
| ArgString (s : string)
| ArgNumber (text : string)
| ArgBoolean (b : bool)
| ArgNull
| ArgUndefined
| ArgObject (json : option string).

(** An entry of the logs container: its class name and its inner HTML. *)
Record LogEntry : Type := mkEntry { className : string; innerHTML : string }.

(** The fields of [UIConsole] (lines 48-56) and what its elements show:
    whether the panel carries the class [translate-y-full], which moves it
    off the screen, the children of the logs container and the text of the
    counter. *)
Record UIConsole : Type := mkConsole {
  logCount : nat;
  isOpen : bool;
  panelOffScreen : bool;
  logsContainer : list LogEntry;
  counter : string
}.

(** The console that the constructor leaves (lines 58-113). *)
Definition newConsole : UIConsole := mkConsole 0 false true [] "0".

(** [_formatArgument], lines 156-168. *)
Definition _formatArgument (arg : LogArgument) : string :=
  match arg with
  | ArgObject (Some json) => json
  | ArgObject None => "[Unserializable Object]"
  | ArgNull => "null"
  | ArgUndefined => "undefined"
  | ArgString s => s
  | ArgNumber text => text
  | ArgBoolean true => "true"
  | ArgBoolean false => "false"
  end.

(** [typeColors], lines 179-183. *)
Definition typeColors (type : LogType) : string :=
  match type with
  | Log => "border-gray-500 text-gray-300"
  | Warn => "border-yellow-500 text-yellow-300"
  | Error => "border-red-500 text-red-400"
  end.

(** The double quote character, as a string. *)
Definition quote : string := String (ascii_of_N 34) EmptyString.

(** [_addLog], lines 175-200; [timestamp] is what
    [new Date().toLocaleTimeString()] returns. *)
Definition _addLog (args : list LogArgument) (type : LogType)
    (timestamp : string) (c : UIConsole) : UIConsole :=
  let formattedArgs := String.concat " " (map _formatArgument args) in
  let logEntry :=
    mkEntry ("p-2 border-l-4 mb-2 " ++ typeColors type)
      ("<span class=" ++ quote ++ "text-gray-500 mr-2" ++ quote ++ ">"
       ++ timestamp
       ++ "</span><pre class=" ++ quote ++ "inline-block whitespace-pre-wrap"
       ++ quote ++ ">" ++ formattedArgs ++ "</pre>") in
  let logCount := S (logCount c) in
  mkConsole logCount (isOpen c) (panelOffScreen c)
    (logsContainer c ++ [logEntry])%list
    (toString (N.of_nat logCount)).

(** [togglePanel], lines 205-208. *)
Definition togglePanel (c : UIConsole) : UIConsole :=
  mkConsole (logCount c) (negb (isOpen c)) (negb (panelOffScreen c))
    (logsContainer c) (counter c).

(** [closePanel], lines 213-218. *)
Definition closePanel (c : UIConsole) : UIConsole :=
  if isOpen c then
    mkConsole (logCount c) false true (logsContainer c) (counter c)
  else c.

(** [clearLogs], lines 223-228. *)
Definition clearLogs (c : UIConsole) : UIConsole :=
  mkConsole 0 (isOpen c) (panelOffScreen c) [] "0".

(** What can happen to the console: a call of one of the overridden
    console methods (lines 130-141) and the three clicks of lines
    148-150. *)
Inductive ConsoleEvent : Type :=
| ConsoleCall (type : LogType) (args : list LogArgument) (timestamp : string)
| ClickFab
| ClickClose
| ClickClear.

Definition consoleStep (c : UIConsole) (e : ConsoleEvent) : UIConsole :=
  match e with
  | ConsoleCall type args timestamp => _addLog args type timestamp c
  | ClickFab => togglePanel c
  | ClickClose => closePanel c
  | ClickClear => clearLogs c
  end.

Definition consoleRun (es : list ConsoleEvent) : UIConsole :=
  fold_left consoleStep es newConsole.

(** What the elements of the console show agrees with its fields. *)
Definition ConsoleInv (c : UIConsole) : Prop :=
  logCount c = length (logsContainer c)
  /\ counter c = toString (N.of_nat (logCount c))
  /\ panelOffScreen c = negb (isOpen c).

End DebugConsole.
Export DebugConsole.

(** ** The share link *)

Module Share.

Definition hexDigit (n : N) : ascii :=
  if (n <? 10)%N then ascii_of_N (48 + n) else ascii_of_N (55 + n).

(** The escape [%XX] of one byte. *)
Definition percent (byte : N) : string :=
  String "%" (String (hexDigit (byte / 16)) (String (hexDigit (byte mod 16)) "")).

(** The characters [encodeURIComponent] leaves as they are: letters,
    digits and [- _ . ! ~ * ' ( )]. *)
Definition isUnreserved (c : ascii) : bool :=
  let n := code c in
  ((65 <=? n) && (n <=? 90) || (97 <=? n) && (n <=? 122)
   || (48 <=? n) && (n <=? 57)
   || (n =? 45) || (n =? 95) || (n =? 46) || (n =? 33) || (n =? 126)
   || (n =? 42) || (n =? 39) || (n =? 40) || (n =? 41))%N.

(** One code unit of the Latin-1 range: kept, or the escapes of the one or
    two bytes of its UTF-8 encoding. *)
Definition encodeChar (c : ascii) : string :=
  let n := code c in
  if isUnreserved c then String c ""
  else if (n <? 128)%N then percent n
  else percent (192 + n / 64) ++ percent (128 + n mod 64).

(** [encodeURIComponent(s)] *)
Fixpoint encodeURIComponent (s : string) : string :=
  match s with
  | EmptyString => EmptyString
  | String c r => encodeChar c ++ encodeURIComponent r
  end.

(** The template of line 905. *)
Definition tweetText (issueType address : string) : string :=
  "I've identified a " ++ quote ++ issueType ++ quote
  ++ " issue and generated a Certificate of Negligence. Location: " ++ address
  ++ ". Requesting attention from the authorities. #CivicNegligence #InfraFail".

(** The URL of lines 906-908. *)
Definition tweetUrl (issueType address : string) : string :=
  "https://twitter.com/intent/tweet?text="
  ++ encodeURIComponent (tweetText issueType address).

(** Whether a character occurs in a string. *)
Fixpoint occurs (c : ascii) (s : string) : bool :=
  match s with
  | EmptyString => false
  | String d r => Ascii.eqb c d || occurs c r
  end.

(** Whether all characters of a string pass a test. *)
Fixpoint allChars (p : ascii -> bool) (s : string) : bool :=
  match s with
  | EmptyString => true
  | String c r => p c && allChars p r
  end.

(** The characters of an encoded component. *)
Definition isEncoded (c : ascii) : bool := isUnreserved c || Ascii.eqb c "%".

End Share.
Export Share.

(** * Properties *)

(** ** Facts about the string built-ins *)

Section StringFacts.

Implicit Types (s r : string) (c : ascii) (b : bool).

Lemma positive_length_nonEmpty w :
  (0 <? String.length w)%nat = nonEmpty w.
Proof. by destruct w. Qed.

Lemma truthy_nonEmpty s : truthy s = negb (String.eqb s "").
Proof. by destruct s. Qed.

Lemma truthy_true s : truthy s = true <-> s <> "".
Proof. destruct s; simpl; split; (done || congruence). Qed.

Lemma splitWs_cons b s : exists w ws, splitWs b s = w :: ws.
Proof.
  revert b; induction s as [|c r IH]; intros b; simpl; [by eauto|].
  destruct (isWhiteSpace c).
  - destruct b; [apply IH | by eauto].
  - destruct (IH false) as (w & ws & ->); by eauto.
Qed.

(** The words of a piece list do not depend on whether the scan starts
    inside a run of white space. *)
Lemma words_splitWs_flag s :
  List.filter nonEmpty (splitWs true s) = List.filter nonEmpty (splitWs false s).
Proof. destruct s as [|c r]; simpl; [done|]. by destruct (isWhiteSpace c). Qed.

Lemma samePieces_words l l' :
  samePieces l l' -> List.filter nonEmpty l = List.filter nonEmpty l'.
Proof.
  destruct l as [|w ws], l' as [|w' ws']; simpl; try done.
  intros [-> ->]; done.
Qed.

Lemma samePieces_refl b s : samePieces (splitWs b s) (splitWs b s).
Proof. destruct (splitWs_cons b s) as (w & ws & ->); by simpl. Qed.

Lemma samePieces_ws c x y b :
  isWhiteSpace c = true ->
  samePieces (splitWs true x) (splitWs true y) ->
  samePieces (splitWs b (String c x)) (splitWs b (String c y)).
Proof.
  intros Ec H. cbn [splitWs]. rewrite Ec. destruct b; [done|].
  split; [done|]. by apply samePieces_words.
Qed.

Lemma samePieces_ws_end c y b :
  isWhiteSpace c = true ->
  samePieces (splitWs true "") (splitWs true y) ->
  samePieces (splitWs b "") (splitWs b (String c y)).
Proof.
  intros Ec H. cbn [splitWs]. rewrite Ec. destruct b; [done|].
  split; [done|]. apply samePieces_words in H. by rewrite <- H.
Qed.

Lemma samePieces_other c x y b :
  isWhiteSpace c = false ->
  samePieces (splitWs false x) (splitWs false y) ->
  samePieces (splitWs b (String c x)) (splitWs b (String c y)).
Proof.
  intros Ec H. cbn [splitWs]. rewrite Ec.
  destruct (splitWs false x) as [|w ws], (splitWs false y) as [|w' ws']; try done.
  destruct H as [-> H]. by split.
Qed.

(** A filter on characters that keeps all white space, such as the
    identity and [stripNonAlpha]. *)
Section CharFilter.

Variable keep : ascii -> bool.
Hypothesis keep_ws : forall c, isWhiteSpace c = true -> keep c = true.

Lemma filterChars_keep c r :
  keep c = true -> filterChars keep (String c r) = String c (filterChars keep r).
Proof. intros H; simpl; by rewrite H. Qed.

Lemma filterChars_drop c r :
  keep c = false -> filterChars keep (String c r) = filterChars keep r.
Proof. intros H; simpl; by rewrite H. Qed.

Lemma samePieces_filter_trimEnd s b :
  samePieces (splitWs b (filterChars keep (trimEnd s))) (splitWs b (filterChars keep s)).
Proof.
  revert b; induction s as [|c r IH]; intros b; [by simpl|].
  cbn [trimEnd].
  destruct (trimEnd r) as [|c' r'] eqn:Er.
  - (* everything after [c] is white space *)
    destruct (isWhiteSpace c) eqn:Ec.
    + rewrite (filterChars_keep c r (keep_ws _ Ec)).
      apply samePieces_ws_end; [done | apply (IH true)].
    + destruct (keep c) eqn:Ek.
      * rewrite !(filterChars_keep c _ Ek). by apply samePieces_other, (IH false).
      * rewrite !(filterChars_drop c _ Ek). apply (IH b).
  - destruct (keep c) eqn:Ek.
    + rewrite !(filterChars_keep c _ Ek).
      destruct (isWhiteSpace c) eqn:Ec.
      * by apply samePieces_ws, (IH true).
      * by apply samePieces_other, (IH false).
    + rewrite !(filterChars_drop c _ Ek). apply (IH b).
Qed.

Lemma words_filter_trimStart s :
  List.filter nonEmpty (split_ws (filterChars keep (trimStart s)))
  = List.filter nonEmpty (split_ws (filterChars keep s)).
Proof.
  unfold split_ws. induction s as [|c r IH]; [done|].
  cbn [trimStart]. destruct (isWhiteSpace c) eqn:Ec; [|done].
  rewrite IH. cbn [filterChars]. rewrite (keep_ws _ Ec).
  cbn [splitWs]. rewrite Ec. simpl. apply eq_sym, words_splitWs_flag.
Qed.

Lemma words_filter_trim s :
  List.filter nonEmpty (split_ws (filterChars keep (trim s)))
  = List.filter nonEmpty (split_ws (filterChars keep s)).
Proof.
  unfold trim. rewrite <- (words_filter_trimStart s).
  apply samePieces_words, samePieces_filter_trimEnd.
Qed.

End CharFilter.

Lemma filterChars_all s : filterChars (fun _ => true) s = s.
Proof. induction s; simpl; congruence. Qed.

Lemma filterChars_strip s :
  filterChars (fun c => isLowerAlpha c || isWhiteSpace c) s = stripNonAlpha s.
Proof.
  induction s as [|c r IH]; simpl; [done|]. by rewrite IH.
Qed.

(** Trimming does not change the words of a string. *)
Lemma words_trim s :
  List.filter nonEmpty (split_ws (trim s)) = List.filter nonEmpty (split_ws s).
Proof.
  pose proof (words_filter_trim (fun _ => true) (fun _ _ => eq_refl) s) as H.
  by rewrite !filterChars_all in H.
Qed.

(** Stripping after trimming yields the same words as stripping alone. *)
Lemma words_strip_trim s :
  List.filter nonEmpty (split_ws (stripNonAlpha (trim s)))
  = List.filter nonEmpty (split_ws (stripNonAlpha s)).
Proof.
  rewrite <- !filterChars_strip. apply words_filter_trim.
  intros c ->. apply orb_true_r.
Qed.

End StringFacts.

(** ** Facts about the region matcher *)

Section MatcherFacts.

Implicit Types (W K : gset string) (k : string) (b : BestMatch).

Local Open Scope Q_scope.

Lemma tokens_of_normalized (s : string) :
  normalizeAndTokenize s = wordSet_spec (normalizeName s).
Proof.
  unfold normalizeAndTokenize, wordSet_spec, normalizeName.
  f_equal.
  rewrite (List.filter_ext _ nonEmpty positive_length_nonEmpty).
  change (fun w => negb (String.eqb w "")) with nonEmpty.
  by rewrite words_trim, words_strip_trim.
Qed.

Lemma filter_has W K : filter (fun word => word ∈ K) W = W ∩ K.
Proof. apply set_eq; intros w. rewrite elem_of_filter, elem_of_intersection. tauto. Qed.

Lemma jaccard_similarity W K : jaccard W K = similarity_spec W K.
Proof. unfold jaccard, similarity_spec. by rewrite filter_has. Qed.

Lemma jaccard_nonneg W K : 0 <= jaccard W K.
Proof. unfold jaccard, Qle; simpl. lia. Qed.

Lemma jaccard_empty_r W : jaccard W ∅ <= 0.
Proof.
  rewrite jaccard_similarity. unfold similarity_spec.
  rewrite (right_absorb_L ∅ (∩) W).
  rewrite size_empty. unfold Qle; simpl. lia.
Qed.

Lemma jaccard_empty_l K : jaccard ∅ K <= 0.
Proof.
  rewrite jaccard_similarity. unfold similarity_spec.
  rewrite (left_absorb_L ∅ (∩) K).
  rewrite size_empty. unfold Qle; simpl. lia.
Qed.

Lemma Qlt_bool_true x y : Qlt_bool x y = true <-> x < y.
Proof.
  unfold Qlt_bool. rewrite negb_true_iff, <- not_true_iff_false, Qle_bool_iff.
  split; [apply Qnot_le_lt | apply Qlt_not_le].
Qed.

Lemma Qlt_bool_false x y : Qlt_bool x y = false <-> y <= x.
Proof.
  unfold Qlt_bool. rewrite negb_false_iff. apply Qle_bool_iff.
Qed.

Lemma considerKey_cases W b k :
  0 <= score b ->
  (considerKey W b k = b /\ scoreOf W k <= score b)
  \/ (considerKey W b k = mkBest k (scoreOf W k) /\ score b < scoreOf W k).
Proof.
  intros Hb. unfold considerKey, scoreOf.
  destruct (Nat.eqb_spec (size (normalizeAndTokenize k)) 0) as [Hz|_].
  - left; split; [done|]. apply size_empty_inv in Hz. apply leibniz_equiv in Hz.
    rewrite Hz. eapply Qle_trans; [apply jaccard_empty_r | done].
  - destruct (Qlt_bool _ _) eqn:E.
    + right; split; [done|]. by apply Qlt_bool_true.
    + left; split; [done|]. by apply Qlt_bool_false.
Qed.

(** The loop keeps the first key of highest score among those that beat
    the score it starts from. *)
Lemma fold_considerKey W ks b0 :
  0 <= score b0 ->
  let b := fold_left (considerKey W) ks b0 in
  score b0 <= score b
  /\ (forall k, In k ks -> scoreOf W k <= score b)
  /\ (b = b0
      \/ exists pre post,
           ks = (pre ++ key b :: post)%list
           /\ score b = scoreOf W (key b)
           /\ score b0 < score b
           /\ forall k, In k pre -> scoreOf W k < score b).
Proof.
  revert b0; induction ks as [|k ks IH]; intros b0 H0; cbn zeta.
  - simpl. split; [apply Qle_refl|]. split; [intros ? []|by left].
  - cbn [fold_left].
    destruct (considerKey_cases W b0 k H0) as [[-> Hle]|[-> Hlt]].
    + specialize (IH b0 H0); cbn zeta in IH.
      set (b := fold_left (considerKey W) ks b0) in *.
      destruct IH as (H1 & H2 & H3).
      split; [done|]. split.
      * intros k' [<-|Hin]; [by eapply Qle_trans|by apply H2].
      * destruct H3 as [H3|(pre & post & Hks & Hs & Hlt & Hpre)]; [by left|].
        right. exists (k :: pre), post. split_and!; try done.
        -- simpl. by f_equal.
        -- intros k' [<-|Hin]; [by eapply Qle_lt_trans|by apply Hpre].
    + assert (0 <= score (mkBest k (scoreOf W k))) as H0' by apply jaccard_nonneg.
      specialize (IH _ H0'); cbn zeta in IH.
      set (b := fold_left (considerKey W) ks (mkBest k (scoreOf W k))) in *.
      destruct IH as (H1 & H2 & H3). cbn [score] in H1.
      split; [eapply Qle_trans; [apply Qlt_le_weak, Hlt|done]|]. split.
      * intros k' [<-|Hin]; [done|by apply H2].
      * right. destruct H3 as [Hb|(pre & post & Hks & Hs & Hlt' & Hpre)].
        -- exists [], ks. rewrite Hb. cbn [key score]. by split_and!.
        -- exists (k :: pre), post. cbn [score] in Hlt'. split_and!; try done.
           ++ simpl. by f_equal.
           ++ by eapply Qlt_trans.
           ++ intros k' [<-|Hin]; [done|by apply Hpre].
Qed.

Lemma lookup_In (catalog : Catalog) k img :
  lookup catalog k = Some img -> In (k, img) catalog.
Proof.
  induction catalog as [|[k0 i0] rest IH]; simpl; [done|].
  destruct (String.eqb_spec k0 k) as [->|_].
  - intros [= ->]. by left.
  - intros H. right. by apply IH.
Qed.

Lemma usable_Some img x : usable img = Some x -> img = Some x /\ x <> "".
Proof.
  destruct img as [s|]; simpl; [|done].
  destruct s; simpl; [done|]. intros [= <-]. done.
Qed.

Lemma andLookup_usable (catalog : Catalog) found x :
  usable (andLookup catalog found) = Some x ->
  exists k, found = Some k /\ lookup catalog k = Some x /\ x <> "".
Proof.
  intros H. apply usable_Some in H as [H Hx].
  destruct found as [k|]; simpl in H; [|done].
  destruct k; simpl in H; [by inversion H; subst|]. by eauto.
Qed.

Lemma getCMImageUrl_in_catalog (catalog : Catalog) state x :
  getCMImageUrl_in catalog state = Some x ->
  x <> "" /\ exists k, In (k, x) catalog.
Proof.
  unfold getCMImageUrl_in. destruct state as [| |s]; try done.
  destruct (truthy s); simpl; [|done].
  destruct (usable (andLookup catalog (find _ _))) as [i|] eqn:E1.
  - intros [= ->]. apply andLookup_usable in E1 as (k & _ & Hk & Hx).
    split; [done|]. exists k. by apply lookup_In.
  - destruct (usable (andLookup catalog (find (isPartialMatch _) _))) as [i|] eqn:E2; [|done].
    intros [= ->]. apply andLookup_usable in E2 as (k & _ & Hk & Hx).
    split; [done|]. exists k. by apply lookup_In.
Qed.

Lemma getCMImageUrl2_in_catalog (catalog : Catalog) state x :
  getCMImageUrl2_in catalog state = Some x ->
  x <> "" /\ exists k, In (k, x) catalog.
Proof.
  unfold getCMImageUrl2_in. destruct state as [| |s]; try done.
  destruct (truthy s); simpl; [|done].
  destruct (_ =? _)%nat; [done|].
  destruct (usable _) as [i|] eqn:E; [|done].
  intros [= ->]. apply usable_Some in E as [E Hx]. split; [done|].
  destruct (Qle_bool _ _); [|done]. eexists. by apply lookup_In.
Qed.

(** *** The source functions against the three-tier algorithm *)

Lemma find_keysOf (catalog : Catalog) (p : string -> bool) :
  find p (keysOf catalog) = option_map fst (find (fun entry => p (fst entry)) catalog).
Proof.
  induction catalog as [|[k0 i0] rest IH]; simpl; [done|].
  by destruct (p k0).
Qed.

Lemma find_pointwise {A} (p q : A -> bool) (l : list A) :
  (forall x, p x = q x) -> find p l = find q l.
Proof. intros H. induction l as [|x l IH]; simpl; [done|]. by rewrite H, IH. Qed.

(** The first entry a predicate on keys selects is the entry its key is
    looked up to. *)
Lemma find_lookup (catalog : Catalog) (p : string -> bool) entry :
  find (fun entry => p (fst entry)) catalog = Some entry ->
  lookup catalog (fst entry) = Some (snd entry).
Proof.
  induction catalog as [|[k0 i0] rest IH]; simpl; [done|].
  destruct (p k0) eqn:Ep.
  - intros [= <-]. simpl. by rewrite String.eqb_refl.
  - intros H. destruct (String.eqb_spec k0 (fst entry)) as [->|_]; [|by apply IH].
    apply find_some in H as [_ H]. congruence.
Qed.

Lemma usable_usableImagery entry :
  usable (Some (snd entry)) = usableImagery (Some entry).
Proof. destruct entry as [k img]. simpl. by destruct img. Qed.

Lemma firstBest_score W entries entry sc :
  firstBest_spec W entries = Some (entry, sc) ->
  sc = similarity_spec W (wordSet_spec (normalize_spec (fst entry))).
Proof.
  revert entry sc; induction entries as [|e0 rest IH]; intros entry sc; simpl; [done|].
  destruct (firstBest_spec W rest) as [[later sc']|].
  - destruct (Qle_bool _ _); intros [= <- <-]; [done|by apply IH].
  - by intros [= <- <-].
Qed.

Lemma firstBest_lookup W (catalog : Catalog) entry sc :
  firstBest_spec W catalog = Some (entry, sc) ->
  lookup catalog (fst entry) = Some (snd entry).
Proof.
  revert entry sc; induction catalog as [|[k0 i0] rest IH]; intros entry sc; simpl; [done|].
  destruct (firstBest_spec W rest) as [[later sc']|] eqn:Er.
  - destruct (Qle_bool _ _) eqn:Ele; intros [= <- <-]; simpl.
    + by rewrite String.eqb_refl.
    + destruct (String.eqb_spec k0 (fst later)) as [->|_]; [|by eapply IH].
      apply firstBest_score in Er. rewrite <- Er in Ele.
      assert (Qle_bool sc' sc' = true) by apply Qle_bool_iff, Qle_refl.
      congruence.
  - intros [= <- <-]; simpl. by rewrite String.eqb_refl.
Qed.

Lemma scoreOf_similarity W k :
  scoreOf W k = similarity_spec W (wordSet_spec (normalize_spec k)).
Proof.
  unfold scoreOf. by rewrite jaccard_similarity, tokens_of_normalized.
Qed.

(** The loop of [getCMImageUrl2] ends on the entry that steps 5 and 6
    select, provided that entry beats the score the loop starts from. *)
Lemma fold_firstBest W (entries : Catalog) b0 :
  0 <= score b0 ->
  fold_left (considerKey W) (keysOf entries) b0
  = match firstBest_spec W entries with
    | Some (entry, sc) =>
        if Qlt_bool (score b0) sc then mkBest (fst entry) sc else b0
    | None => b0
    end.
Proof.
  revert b0; induction entries as [|e0 rest IH]; intros b0 H0; [done|].
  change (keysOf (e0 :: rest)) with (fst e0 :: keysOf rest).
  cbn [fold_left firstBest_spec].
  rewrite <- (scoreOf_similarity W (fst e0)).
  destruct (considerKey_cases W b0 (fst e0) H0) as [[-> Hle]|[-> Hlt]].
  - rewrite (IH b0 H0).
    destruct (firstBest_spec W rest) as [[later sc']|].
    + destruct (Qle_bool sc' (scoreOf W (fst e0))) eqn:E1.
      * apply Qle_bool_iff in E1.
        assert (Qlt_bool (score b0) sc' = false) as ->
          by (apply Qlt_bool_false; by eapply Qle_trans).
        by assert (Qlt_bool (score b0) (scoreOf W (fst e0)) = false) as ->
          by by apply Qlt_bool_false.
      * done.
    + by assert (Qlt_bool (score b0) (scoreOf W (fst e0)) = false) as ->
        by by apply Qlt_bool_false.
  - rewrite (IH (mkBest (fst e0) (scoreOf W (fst e0))) (jaccard_nonneg _ _)).
    cbn [score].
    destruct (firstBest_spec W rest) as [[later sc']|].
    + unfold Qlt_bool at 1.
      destruct (Qle_bool sc' (scoreOf W (fst e0))) eqn:E1; cbn [negb].
      * by assert (Qlt_bool (score b0) (scoreOf W (fst e0)) = true) as ->
          by by apply Qlt_bool_true.
      * assert (scoreOf W (fst e0) < sc') as Hlt'
          by (apply Qlt_bool_true; unfold Qlt_bool; by rewrite E1).
        by assert (Qlt_bool (score b0) sc' = true) as ->
          by (apply Qlt_bool_true; by eapply Qlt_trans).
    + by assert (Qlt_bool (score b0) (scoreOf W (fst e0)) = true) as ->
        by by apply Qlt_bool_true.
Qed.

Lemma threshold_two_fifths sc :
  Qle_bool SIMILARITY_THRESHOLD sc = Qle_bool (2 # 5) sc.
Proof.
  unfold Qle_bool, SIMILARITY_THRESHOLD; simpl.
  destruct (Z.leb_spec (4 * Zpos (Qden sc)) (Qnum sc * 10)),
           (Z.leb_spec (2 * Zpos (Qden sc)) (Qnum sc * 5)); (done || lia).
Qed.

Lemma below_threshold sc : sc <= 0 -> Qle_bool (2 # 5) sc = false.
Proof.
  intros H. apply not_true_iff_false. rewrite Qle_bool_iff. intros H'.
  assert ((2 # 5) <= 0) as Hc by by eapply Qle_trans. by compute in Hc.
Qed.

Section TruthyKeys.

Variable catalog : Catalog.
Hypothesis keys_truthy : forall k, In k (keysOf catalog) -> truthy k = true.

Lemma andLookup_find (p : string -> bool) :
  usable (andLookup catalog (find p (keysOf catalog)))
  = usableImagery (find (fun entry => p (fst entry)) catalog).
Proof.
  rewrite find_keysOf.
  destruct (find (fun entry => p (fst entry)) catalog) as [entry|] eqn:E; [|done].
  cbn [option_map andLookup].
  rewrite keys_truthy.
  - rewrite (find_lookup _ _ _ E). apply usable_usableImagery.
  - apply find_some in E as [E _]. by apply in_map.
Qed.

Lemma exactPass_agrees n :
  usable (andLookup catalog (find (isExactMatch n) (keysOf catalog)))
  = usableImagery (exactPass_spec catalog n).
Proof. apply andLookup_find. Qed.

Lemma substringPass_agrees n :
  usable (andLookup catalog (find (isPartialMatch n) (keysOf catalog)))
  = usableImagery (substringPass_spec catalog n).
Proof.
  rewrite andLookup_find. unfold substringPass_spec. f_equal.
  apply find_pointwise. intros entry. unfold isPartialMatch. apply orb_comm.
Qed.

Lemma tokenPass_agrees s :
  truthy s = true ->
  getCMImageUrl2_in catalog (value s)
  = usable (tokenPass_spec catalog (normalize_spec s)).
Proof.
  intros Hs. unfold getCMImageUrl2_in, tokenPass_spec. rewrite Hs. cbn [negb].
  rewrite tokens_of_normalized. change (normalizeName s) with (normalize_spec s).
  set (W := wordSet_spec (normalize_spec s)).
  unfold bestMatchOver. rewrite fold_firstBest by apply Qle_refl. cbn [score].
  destruct (Nat.eqb_spec (size W) 0) as [Hz|_].
  - apply size_empty_inv, leibniz_equiv in Hz.
    destruct (firstBest_spec W catalog) as [[entry sc]|] eqn:E; [|done].
    apply firstBest_score in E. rewrite below_threshold; [done|].
    rewrite E, Hz, <- jaccard_similarity. apply jaccard_empty_l.
  - destruct (firstBest_spec W catalog) as [[entry sc]|] eqn:E; [|done].
    destruct (Qlt_bool 0 sc) eqn:E0; cbn [key score].
    + rewrite threshold_two_fifths, (firstBest_lookup _ _ _ _ E).
      by destruct (usable _).
    + apply Qlt_bool_false in E0. by rewrite (below_threshold _ E0).
Qed.

(** The combination of line 747 computes the usable part of what the
    three-tier algorithm returns. *)
Lemma imgUrl_in_three_tier state :
  imgUrl_in catalog state = usable (regionMatcher_spec catalog state).
Proof.
  destruct state as [| |s]; try done.
  destruct s as [|c r]; [done|].
  set (s := String c r). assert (truthy s = true) as Hs by done.
  unfold imgUrl_in, regionMatcher_spec.
  rewrite (tokenPass_agrees s Hs).
  unfold getCMImageUrl_in. rewrite Hs. cbn [negb String.eqb].
  change (normalizeName s) with (normalize_spec s).
  rewrite exactPass_agrees, substringPass_agrees.
  assert (forall found img, usableImagery found = Some img -> truthy img = true) as Hu.
  { intros [[k i]|] img; simpl; [|done]. destruct i; simpl; [done|]. by intros [= <-]. }
  destruct (usableImagery (exactPass_spec _ _)) as [img|] eqn:E1.
  - simpl. by rewrite (Hu _ _ E1).
  - destruct (usableImagery (substringPass_spec _ _)) as [img|] eqn:E2.
    + simpl. by rewrite (Hu _ _ E2).
    + done.
Qed.

End TruthyKeys.

Lemma CM_DATA_keys_truthy k : In k (keysOf CM_DATA) -> truthy k = true.
Proof.
  intros H. apply list_elem_of_In in H. revert k H.
  apply Forall_forall. repeat constructor.
Qed.

End MatcherFacts.

(** ** Claims about the region matcher *)

Section MatcherClaims.

Local Open Scope Q_scope.

Lemma getCMImageUrl_by_normalized (catalog : Catalog) (s s' : string) :
  truthy s = true -> truthy s' = true ->
  normalizeName s = normalizeName s' ->
  getCMImageUrl_in catalog (value s) = getCMImageUrl_in catalog (value s').
Proof.
  intros Hs Hs' Hn. unfold getCMImageUrl_in. by rewrite Hs, Hs', Hn.
Qed.

Lemma getCMImageUrl2_by_normalized (catalog : Catalog) (s s' : string) :
  truthy s = true -> truthy s' = true ->
  normalizeName s = normalizeName s' ->
  getCMImageUrl2_in catalog (value s) = getCMImageUrl2_in catalog (value s').
Proof.
  intros Hs Hs' Hn. unfold getCMImageUrl2_in.
  by rewrite Hs, Hs', !tokens_of_normalized, Hn.
Qed.

Lemma imgUrl_by_normalized (s s' : string) :
  truthy s = true -> truthy s' = true ->
  normalizeName s = normalizeName s' ->
  getCMImageUrl (value s) = getCMImageUrl (value s')
  /\ imgUrl (value s) = imgUrl (value s').
Proof.
  intros Hs Hs' Hn. unfold imgUrl, imgUrl_in, getCMImageUrl.
  by rewrite (getCMImageUrl_by_normalized _ s s'),
             (getCMImageUrl2_by_normalized _ s s').
Qed.

(** C1, as stated, fails: "Manipur" equals a catalog key, the entry's
    imagery is the empty string, and the matcher returns [null] instead of
    that imagery. *)
Lemma exact_match_manipur_returns_null :
  In ("Manipur", "") CM_DATA
  /\ "Manipur" <> ""
  /\ normalizeName "Manipur" = normalizeName "Manipur"
  /\ getCMImageUrl (value "Manipur") = None
  /\ imgUrl (value "Manipur") = None
  /\ imgUrl (value "Manipur") <> Some "".
Proof.
  split; [do 16 right; by left|].
  split; [done|]. split; [done|].
  split; [by vm_compute|]. split; [by vm_compute|].
  by vm_compute.
Qed.

(** Every catalog key, given as input, is answered with the usable part of
    its own imagery. *)
Lemma catalog_keys_answered :
  Forall (fun entry =>
            getCMImageUrl (value (fst entry)) = usable (Some (snd entry))
            /\ imgUrl (value (fst entry)) = usable (Some (snd entry)))
         CM_DATA.
Proof.
  unfold CM_DATA.
  repeat (constructor; [split; vm_compute; reflexivity|]).
  constructor.
Qed.

(** C1 (amended): a non-empty input whose normalized form equals the
    normalized key of a catalog entry is answered with that entry's imagery
    when the imagery is non-empty, and with [null] when the entry's imagery
    is the empty string. *)
Theorem exact_match_returns_usable_imagery (s key img : string) :
  s <> "" ->
  In (key, img) CM_DATA ->
  normalizeName s = normalizeName key ->
  (img <> "" ->
   getCMImageUrl (value s) = Some img /\ imgUrl (value s) = Some img)
  /\ (img = "" ->
      getCMImageUrl (value s) = None /\ imgUrl (value s) = None).
Proof.
  intros Hs Hin Hn. apply truthy_true in Hs.
  assert (truthy key = true) as Hk.
  { apply CM_DATA_keys_truthy. change key with (fst (key, img)). by apply in_map. }
  destruct (imgUrl_by_normalized s key Hs Hk Hn) as [-> ->].
  apply list_elem_of_In in Hin.
  pose proof (proj1 (Forall_forall _ _) catalog_keys_answered _ Hin) as [H1 H2].
  cbn [fst snd] in H1, H2. rewrite H1, H2.
  split.
  - intros Hi. apply truthy_true in Hi. simpl. by rewrite Hi.
  - by intros ->.
Qed.

Lemma exact_match_returns_usable_imagery_witness :
  getCMImageUrl (value "  DELHI ") = lookup CM_DATA "Delhi"
  /\ imgUrl (value "  DELHI ") = lookup CM_DATA "Delhi".
Proof.
  assert ("  DELHI " <> "") as H1 by done.
  assert (In ("Delhi",
              "https://upload.wikimedia.org/wikipedia/commons/7/72/Chief_Minister_of_Delhi%2C_Smt._Rekha_Gupta.jpg")
             CM_DATA) as H2 by (do 5 right; left; reflexivity).
  assert (normalizeName "  DELHI " = normalizeName "Delhi") as H3 by reflexivity.
  destruct (exact_match_returns_usable_imagery _ _ _ H1 H2 H3) as [H _].
  apply H. discriminate.
Defined.

Lemma token_overlap_in (catalog : Catalog) (s : string) :
  let W := normalizeAndTokenize s in
  let best := bestMatchOver W (keysOf catalog) in
  (forall k, In k (keysOf catalog) -> scoreOf W k <= score best)
  /\ (0 < score best ->
      exists pre post,
        keysOf catalog = (pre ++ key best :: post)%list
        /\ score best = scoreOf W (key best)
        /\ forall k, In k pre -> scoreOf W k < score best)
  /\ (score best <= 0 -> best = mkBest "" 0)
  /\ (forall img,
        getCMImageUrl2_in catalog (value s) = Some img ->
        SIMILARITY_THRESHOLD <= score best
        /\ lookup catalog (key best) = Some img)
  /\ (score best < SIMILARITY_THRESHOLD ->
      getCMImageUrl2_in catalog (value s) = None).
Proof.
  intros W best.
  pose proof (fold_considerKey W (keysOf catalog) (mkBest "" 0) (Qle_refl 0)) as H.
  cbn zeta in H. fold (bestMatchOver W (keysOf catalog)) in H. fold best in H.
  destruct H as (_ & Hmax & Hfirst).
  split; [done|]. split; [|split].
  - intros Hpos. destruct Hfirst as [Heq|(pre & post & Hks & Hs & _ & Hpre)].
    + rewrite Heq in Hpos. by apply Qlt_irrefl in Hpos.
    + by exists pre, post.
  - intros Hle. destruct Hfirst as [Heq|(_ & _ & _ & _ & Hlt & _)]; [done|].
    cbn [score] in Hlt. by apply Qlt_not_le in Hlt.
  - unfold getCMImageUrl2_in. fold W. fold best.
    destruct (negb (truthy s)); [split; [done|done]|].
    destruct (size W =? 0)%nat; [split; [done|done]|].
    destruct (Qle_bool SIMILARITY_THRESHOLD (score best)) eqn:E.
    + apply Qle_bool_iff in E. split.
      * intros img Himg. split; [done|].
        destruct (usable _) as [i|] eqn:Eu; [|done].
        apply usable_Some in Eu as [Eu _]. congruence.
      * intros Hlt. by apply Qlt_not_le in Hlt.
    + by split.
Qed.



(** C3, as stated, fails: on "Manipur" the three-tier algorithm accepts the
    entry and returns its (empty) imagery, the source returns [null]. *)
Lemma three_tier_differs_on_manipur :
  regionMatcher_spec CM_DATA (value "Manipur") = Some ""
  /\ imgUrl (value "Manipur") = None
  /\ imgUrl (value "Manipur") <> regionMatcher_spec CM_DATA (value "Manipur").
Proof. split; [by vm_compute|]. split; by vm_compute. Qed.

(** C3 (amended): for every input the combination of the two source
    functions returns what the three-tier algorithm returns, except that an
    empty imagery string returned by the algorithm becomes [null]. *)
Theorem imgUrl_refines_three_tier (state : nullable string) :
  imgUrl state = usable (regionMatcher_spec CM_DATA state).
Proof. apply imgUrl_in_three_tier, CM_DATA_keys_truthy. Qed.

(** C8: [null], [undefined] and the empty string are answered with [null]
    by both functions and by their combination, whatever the catalog. *)
Theorem empty_input_no_match (catalog : Catalog) :
  getCMImageUrl_in catalog null = None
  /\ getCMImageUrl_in catalog undefined = None
  /\ getCMImageUrl_in catalog (value "") = None
  /\ getCMImageUrl2_in catalog null = None
  /\ getCMImageUrl2_in catalog undefined = None
  /\ getCMImageUrl2_in catalog (value "") = None
  /\ imgUrl_in catalog null = None
  /\ imgUrl_in catalog undefined = None
  /\ imgUrl_in catalog (value "") = None.
Proof. by repeat split. Qed.

(** C9, as stated, fails on its own example: "Jammu & Kashmir" and "kashmir
    jammu" do not have the same word set, since [&] becomes the word "and",
    and against the key "Jammu & Kashmir" the first scores 1 and the second
    2/3. *)
Lemma jaccard_differs_on_ampersand_pair :
  normalizeAndTokenize "Jammu & Kashmir" <> normalizeAndTokenize "kashmir jammu"
  /\ size (normalizeAndTokenize "Jammu & Kashmir") = 3%nat
  /\ size (normalizeAndTokenize "kashmir jammu") = 2%nat
  /\ scoreOf (normalizeAndTokenize "Jammu & Kashmir") "Jammu & Kashmir" == 1
  /\ scoreOf (normalizeAndTokenize "kashmir jammu") "Jammu & Kashmir" == 2 # 3
  /\ ~ scoreOf (normalizeAndTokenize "Jammu & Kashmir") "Jammu & Kashmir"
       == scoreOf (normalizeAndTokenize "kashmir jammu") "Jammu & Kashmir".
Proof.
  split.
  { intros H. apply (f_equal size) in H. by vm_compute in H. }
  split; [by vm_compute|]. split; [by vm_compute|].
  split; [by vm_compute|]. split; by vm_compute.
Qed.

(** C9 (amended): the Jaccard score does not depend on which of the two
    word sets is the input's and which the key's, and two inputs with the
    same word set, such as "kashmir jammu" and "jammu kashmir", score the
    same against every key and end the loop on the same best match. *)
Theorem jaccard_symmetric (s1 s2 k : string) :
  normalizeAndTokenize s1 = normalizeAndTokenize s2 ->
  scoreOf (normalizeAndTokenize s1) k = scoreOf (normalizeAndTokenize s2) k
  /\ jaccard (normalizeAndTokenize s1) (normalizeAndTokenize k)
     = jaccard (normalizeAndTokenize k) (normalizeAndTokenize s1)
  /\ bestMatchOver (normalizeAndTokenize s1) (keysOf CM_DATA)
     = bestMatchOver (normalizeAndTokenize s2) (keysOf CM_DATA).
Proof.
  intros Heq. split; [by rewrite Heq|]. split; [|by rewrite Heq].
  rewrite !jaccard_similarity. unfold similarity_spec.
  set (A := normalizeAndTokenize s1). set (B := normalizeAndTokenize k).
  assert (A ∩ B = B ∩ A) as Hi
    by (apply set_eq; intros w; rewrite !elem_of_intersection; tauto).
  assert (A ∪ B = B ∪ A) as Hu
    by (apply set_eq; intros w; rewrite !elem_of_union; tauto).
  by rewrite Hi, Hu.
Qed.

Lemma jaccard_symmetric_witness :
  scoreOf (normalizeAndTokenize "kashmir jammu") "Jammu & Kashmir"
  = scoreOf (normalizeAndTokenize "jammu kashmir") "Jammu & Kashmir"
  /\ jaccard (normalizeAndTokenize "kashmir jammu")
       (normalizeAndTokenize "Jammu & Kashmir")
     = jaccard (normalizeAndTokenize "Jammu & Kashmir")
         (normalizeAndTokenize "kashmir jammu")
  /\ bestMatchOver (normalizeAndTokenize "kashmir jammu") (keysOf CM_DATA)
     = bestMatchOver (normalizeAndTokenize "jammu kashmir") (keysOf CM_DATA).
Proof.
  apply (jaccard_symmetric "kashmir jammu" "jammu kashmir" "Jammu & Kashmir").
  vm_compute. reflexivity.
Defined.

(** C10: the combination of the two functions returns [null] or a
    non-empty image of the catalog, never the empty string; "Manipur", a
    catalog key without image, is answered like an unknown region. *)
Theorem imgUrl_null_or_catalog_image (state : nullable string) :
  (imgUrl state = None
   \/ exists k url, In (k, url) CM_DATA /\ url <> "" /\ imgUrl state = Some url)
  /\ imgUrl state <> Some ""
  /\ In ("Manipur", "") CM_DATA
  /\ imgUrl (value "Manipur") = imgUrl (value "Zxyland").
Proof.
  assert (forall x, imgUrl state = Some x ->
                    x <> "" /\ exists k, In (k, x) CM_DATA) as H.
  { intros x. unfold imgUrl, imgUrl_in.
    destruct (getCMImageUrl_in CM_DATA state) as [i|] eqn:E1; simpl.
    - destruct (getCMImageUrl_in_catalog _ _ _ E1) as [Hi Hk].
      apply truthy_true in Hi. rewrite Hi. by intros [= <-]; split; [apply truthy_true|].
    - apply getCMImageUrl2_in_catalog. }
  split; [|split; [|split]].
  - destruct (imgUrl state) as [x|]; [|by left].
    right. destruct (H x eq_refl) as [Hx [k Hk]]. by exists k, x.
  - intros Hx. by destruct (H _ Hx).
  - do 16 right; by left.
  - by vm_compute.
Qed.

End MatcherClaims.

(** ** Facts about the capture orchestrator *)

Section OrchestratorFacts.

Lemma Inv_initial : Inv initialState.
Proof. constructor; simpl; try done. by intros [|]. Qed.

Lemma stopCamera_eq s :
  stopCamera s
  = s |> setLiveStreams
           (match streamRef s with
            | Some stream =>
                List.filter (fun x => negb (x =? stream)%nat) (liveStreams s)
            | None => liveStreams s
            end)
      |> setStreamRef None.
Proof. destruct s as [st loc err img cert msg sh it cm [h|] live pd]; reflexivity. Qed.

(** Unfolding of the handlers down to the state setters. *)
Ltac handlers :=
  unfold startCaptureSequence, startCaptureSequence_stream, startCaptureSequence_catch,
    onPosition, onGeocoded, onPositionError, handleCapture, generateCertificate,
    generateCertificate_resolved, generateCertificate_rejected, handleReset,
    handleShare, videoRef_current, certificateRef_current in *;
  rewrite ?stopCamera_eq in *.

(** Case analysis on the guards of a handler call [Hh], then on the
    conditionals left in the state the handler returns. *)
Ltac guards Hh :=
  repeat match type of Hh with
         | (if ?b then _ else _) = Some _ => destruct b eqn:?
         end;
  try discriminate Hh; injection Hh as <-;
  repeat match goal with
         | |- Inv (if depsChanged _ _ ?s1 then _ else _) =>
             match s1 with
             | context [if ?b then _ else _] => destruct b eqn:?
             | context [match ?c with Some _ => _ | None => _ end] =>
                 is_var c; destruct c
             end
         end.

Lemma bool_decide_neq_refl {A} `{EqDecision A} (x : A) :
  bool_decide (x <> x) = false.
Proof. by destruct (bool_decide_reflect (x <> x)). Qed.

(** Evaluation of the effect that follows a handler. *)
Ltac effects :=
  unfold depsChanged, generateEffect; simpl;
  repeat match goal with
         | H : step _ = _ |- _ => rewrite H; simpl
         end;
  rewrite ?bool_decide_neq_refl; simpl;
  repeat match goal with
         | H : step _ = _ |- _ => rewrite H; simpl
         | |- Inv (if ?c then _ else _) => destruct c eqn:?
         end.

Lemma handle_effect_Inv s e s' :
  Inv s -> dispatch s e = Some s' -> Inv s'.
Proof.
  intros [I1 I2 I3 I4 I5 I6] H.
  unfold dispatch in H.
  destruct (handle s e) as [s1|] eqn:Hh; [|done].
  injection H as <-.
  destruct (step s) eqn:Hst, (pending s) eqn:Hpd; try done.
  all: destruct e; unfold handle in Hh; rewrite ?Hst, ?Hpd in Hh; simpl in Hh; try done.
  all: handlers; rewrite ?Hst, ?Hpd in *; simpl in Hh; guards Hh.
  all: effects.
  all: constructor; simpl; rewrite ?Hst, ?Hpd; simpl; try done.
  all: try (intros [?|?];
            first [ discriminate
                  | by apply I3; auto
                  | by destruct (isSome (location s)), (truthyOpt (capturedImage s)),
                         (truthyOpt (issueType s)) ]).
  all: try (destruct (streamRef s); [destruct I6 as [I6 I6']; (discriminate || done)|done]).
  all: try (rewrite I5; destruct (streamRef s); simpl; rewrite ?Nat.eqb_refl; done).
  all: try match goal with
           | H : negb (?x =? ?x)%nat = true |- _ =>
               rewrite Nat.eqb_refl in H; discriminate H
           end.
  all: try match goal with
           | H : truthy ?m = true, H' : context [negb (truthy ?m)] |- _ =>
               rewrite H, ?andb_false_r in H'; discriminate H'
           end.
  all: rewrite I5; destruct (streamRef s); [by destruct I6|done].
Qed.

Lemma reachable_Inv s : reachable s -> Inv s.
Proof.
  induction 1 as [|s e s' _ IH H]; [apply Inv_initial|].
  by apply (handle_effect_Inv s e s').
Qed.

Lemma run_reachable es : forall s s', reachable s -> run s es = Some s' -> reachable s'.
Proof.
  induction es as [|e es IH]; intros s s' Hs; simpl.
  - by intros [= <-].
  - destruct (dispatch s e) as [s1|] eqn:E; [|done].
    apply IH. by apply (reachable_dispatch s e s1).
Qed.

Lemma isSome_true {A} (v : option A) : isSome v = true -> v <> None.
Proof. by destruct v. Qed.

Lemma truthyOpt_true v : truthyOpt v = true -> v <> None.
Proof. by destruct v. Qed.

(** The fields a certificate is drawn from are there in the result step
    and whenever a certificate is held. *)
Lemma Inv_certificate_fields s :
  Inv s ->
  step s = result \/ generatedCertificate s <> None ->
  location s <> None /\ capturedImage s <> None /\ issueType s <> None.
Proof.
  intros [_ _ I3 I4 _ _] H.
  assert (step s = result) as Hst.
  { destruct H as [H|H]; [done|].
    destruct (generatedCertificate s); [|done].
    by destruct (bool_decide_reflect (step s = result)). }
  destruct I3 as (H1 & H2 & H3); [by right|].
  split_and!; first [by apply isSome_true | by apply truthyOpt_true].
Qed.

(** Only the resolution of the rasterization enters the result step. *)
Lemma dispatch_enters_result s e s' :
  dispatch s e = Some s' ->
  step s' = result -> step s <> result ->
  pending s = AwaitRaster
  /\ location s' = location s /\ capturedImage s' = capturedImage s
  /\ issueType s' = issueType s
  /\ exists dataUrl, e = RasterResolved dataUrl
                     /\ generatedCertificate s' = Some dataUrl.
Proof.
  unfold dispatch. destruct (handle s e) as [s1|] eqn:Hh; [|done].
  intros [= <-] Hres Hne.
  assert (step s1 = result) as Hres1.
  { destruct (depsChanged e s s1); [|done].
    unfold generateEffect in Hres. by destruct (_ && _). }
  assert (generateEffect s1 = s1) as Heff.
  { unfold generateEffect. by rewrite Hres1. }
  destruct (depsChanged e s s1); rewrite ?Heff; clear Hres Heff.
  all: destruct (step s) eqn:Hst; try done.
  all: destruct (pending s) eqn:Hpd.
  all: destruct e; unfold handle in Hh; rewrite ?Hst, ?Hpd in Hh; simpl in Hh;
    try done.
  all: handlers; rewrite ?Hst, ?Hpd in *; simpl in Hh; guards Hh.
  all: repeat match goal with
              | H : step ?s1 = result |- _ =>
                  match s1 with
                  | context [if ?b then _ else _] => destruct b eqn:?
                  | context [match ?c with Some _ => _ | None => _ end] =>
                      is_var c; destruct c
                  end
              end.
  all: simpl in *; rewrite ?Hst in *; try done.
  all: split_and!; try done; by eexists.
Qed.

(** X20: the failures that have a handler end in the initial step with a
    message set and no camera stream live. *)
Lemma handled_failures_return_to_idle (s : State) (e : Event) (s' : State) :
  reachable s ->
  dispatch s e = Some s' ->
  handledFailure e = true ->
  step s' = initial /\ truthy (error s') = true
  /\ streamRef s' = None /\ liveStreams s' = [] /\ pending s' = Quiescent.
Proof.
  intros Hs Hd He. destruct (reachable_Inv s Hs) as [I1 I2 I3 I4 I5 I6].
  unfold dispatch in Hd.
  destruct (handle s e) as [s1|] eqn:Hh; [|done]. injection Hd as <-.
  destruct (step s) eqn:Hst, (pending s) eqn:Hpd; try done.
  all: destruct e as [| | ? [|] | | | | | | | [|] | | | | | |]; try done.
  all: unfold handle in Hh; rewrite ?Hst, ?Hpd in Hh; simpl in Hh; try done.
  all: handlers; rewrite ?Hst, ?Hpd in *; simpl in Hh; guards Hh.
  all: repeat match goal with
              | |- context [if negb ?b then _ else _] => destruct b eqn:?; simpl
              end.
  all: effects.
  all: split_and!; try done.
  all: try (rewrite I5; destruct (streamRef s); simpl; rewrite ?Nat.eqb_refl;
            first [done | by destruct I6]).
  all: try (destruct (streamRef s); [by destruct I6|done]).
  all: first [ by destruct (String.eqb _ _)
             | unfold geolocationErrorMessage; by repeat destruct (_ =? _)%Z
             | match goal with
               | H : (?x =? ?x)%nat = false |- _ =>
                   rewrite Nat.eqb_refl in H; discriminate H
               end ].
Qed.

Lemma imgUrl_in_catalog state url :
  imgUrl state = Some url -> url <> "" /\ exists k, In (k, url) CM_DATA.
Proof.
  unfold imgUrl, imgUrl_in.
  destruct (getCMImageUrl_in CM_DATA state) as [i|] eqn:E1; simpl.
  - destruct (getCMImageUrl_in_catalog _ _ _ E1) as [Hi Hk].
    apply truthy_true in Hi. rewrite Hi. by intros [= <-]; split; [apply truthy_true|].
  - apply getCMImageUrl2_in_catalog.
Qed.

Lemma SessionInv_initial : SessionInv initialState.
Proof. by constructor. Qed.

Ltac guards_any Hh :=
  repeat match type of Hh with
         | (if ?b then _ else _) = Some _ => destruct b eqn:?
         end;
  try discriminate Hh; injection Hh as <-;
  repeat match goal with
         | |- context [if depsChanged _ _ ?s1 then _ else _] =>
             match s1 with
             | context [if ?b then _ else _] => destruct b eqn:?
             | context [match ?c with Some _ => _ | None => _ end] =>
                 is_var c; destruct c
             end
         end.

Ltac effects_any :=
  unfold depsChanged, generateEffect; simpl;
  repeat match goal with
         | H : step _ = _ |- _ => rewrite H; simpl
         end;
  rewrite ?bool_decide_neq_refl; simpl;
  repeat match goal with
         | H : step _ = _ |- _ => rewrite H; simpl
         | |- context [if ?c then await AwaitTimer _ else _] => destruct c eqn:?
         end.

Lemma dispatch_SessionInv s e s' :
  Inv s -> SessionInv s -> dispatch s e = Some s' -> SessionInv s'.
Proof.
  intros [I1 I2 I3 I4 I5 I6] [J1 J2 J3 J4 J5 J6] H.
  unfold dispatch in H.
  destruct (handle s e) as [s1|] eqn:Hh; [|done].
  injection H as <-.
  destruct (step s) eqn:Hst, (pending s) eqn:Hpd; try done.
  all: destruct e; unfold handle in Hh; rewrite ?Hst, ?Hpd in Hh; simpl in Hh; try done.
  all: handlers; rewrite ?Hst, ?Hpd in *; simpl in Hh; guards_any Hh.
  all: effects_any.
  all: constructor; simpl; rewrite ?Hst, ?Hpd; simpl; try done.
  all: try (exists type; split; [done|];
            apply bool_decide_eq_true_1, list_elem_of_In in Heqb; exact Heqb).
  all: try (destruct display_name as [| |a]; try done; by destruct (truthy a) eqn:?).
  all: try (destruct (imgUrl state) eqn:?; [by apply (imgUrl_in_catalog state)|done]).
  all: match type of J5 with
       | _ /\ _ =>
           destruct J5 as [J5 J5']; split; [done|]; intros Hm;
           first [ done | by rewrite I2 in Hm | by apply J5' | by rewrite J5 ]
       end.
Qed.

Lemma reachable_SessionInv s : reachable s -> SessionInv s.
Proof.
  induction 1 as [|s e s' Hs IH H]; [apply SessionInv_initial|].
  by apply (dispatch_SessionInv s e s'); [apply reachable_Inv| |].
Qed.

(** Every event moves the step along an arrow of the diagram, or leaves it
    where it is. *)
Lemma dispatch_follows_edges s e s' :
  Inv s -> dispatch s e = Some s' ->
  step s' = step s \/ allowedEdge (step s) (step s') = true.
Proof.
  intros [I1 I2 I3 I4 I5 I6] H.
  unfold dispatch in H.
  destruct (handle s e) as [s1|] eqn:Hh; [|done].
  injection H as <-.
  destruct (step s) eqn:Hst, (pending s) eqn:Hpd; try done.
  all: destruct e; unfold handle in Hh; rewrite ?Hst, ?Hpd in Hh; simpl in Hh; try done.
  all: handlers; rewrite ?Hst, ?Hpd in *; simpl in Hh; guards_any Hh.
  all: effects_any.
  all: rewrite ?Hst; simpl; auto.
Qed.

(** The handlers of failures touch the message, the step and the camera
    only: what the report holds stays as it was. *)
Lemma handled_failures_keep_report s e s' :
  Inv s -> dispatch s e = Some s' -> handledFailure e = true ->
  location s' = location s /\ capturedImage s' = capturedImage s
  /\ issueType s' = issueType s /\ cmImageUrl s' = cmImageUrl s
  /\ generatedCertificate s' = generatedCertificate s.
Proof.
  intros [I1 I2 I3 I4 I5 I6] Hd He.
  unfold dispatch in Hd.
  destruct (handle s e) as [s1|] eqn:Hh; [|done]. injection Hd as <-.
  destruct (step s) eqn:Hst, (pending s) eqn:Hpd; try done.
  all: destruct e as [| | ? [|] | | | | | | | [|] | | | | | |]; try done.
  all: unfold handle in Hh; rewrite ?Hst, ?Hpd in Hh; simpl in Hh; try done.
  all: handlers; rewrite ?Hst, ?Hpd in *; simpl in Hh; guards_any Hh.
  all: repeat match goal with
              | |- context [if negb ?b then _ else _] => destruct b eqn:?; simpl
              end.
  all: effects_any.
  all: by split_and!.
Qed.

End OrchestratorFacts.

(** ** Claims about the capture orchestrator *)

Section OrchestratorClaims.

(** C4: a step of the page enters the result step, or sets the generated
    certificate, only as the resolution of the rasterization, and then
    [location], [capturedImage] and [issueType] are all non-null, before the
    step and after it; in every state that is in the result step or holds a
    certificate the three are non-null. *)
Theorem certificate_requires_all_fields (s : State) (e : Event) (s' : State) :
  reachable s ->
  dispatch s e = Some s' ->
  (step s' = result \/ generatedCertificate s' <> None ->
   location s' <> None /\ capturedImage s' <> None /\ issueType s' <> None)
  /\ (step s' = result -> step s <> result ->
      (exists dataUrl, e = RasterResolved dataUrl
                       /\ generatedCertificate s' = Some dataUrl)
      /\ location s <> None /\ capturedImage s <> None /\ issueType s <> None)
  /\ (generatedCertificate s' <> None -> generatedCertificate s = None ->
      step s' = result /\ exists dataUrl, e = RasterResolved dataUrl).
Proof.
  intros Hs Hd.
  pose proof (reachable_Inv s Hs) as HI.
  pose proof (reachable_Inv s' (reachable_dispatch s e s' Hs Hd)) as HI'.
  assert (step s' = result -> step s <> result ->
          (exists dataUrl, e = RasterResolved dataUrl
                           /\ generatedCertificate s' = Some dataUrl)
          /\ location s <> None /\ capturedImage s <> None /\ issueType s <> None)
    as Henter.
  { intros Hres Hne.
    destruct (dispatch_enters_result s e s' Hd Hres Hne)
      as (Hpd & Hl & Hc & Hi & Hurl).
    split; [done|].
    destruct (Inv_certificate_fields s' HI') as (H1 & H2 & H3); [by left|].
    by rewrite <- Hl, <- Hc, <- Hi. }
  split; [by apply Inv_certificate_fields|]. split; [done|].
  intros Hcert Hnone.
  assert (step s' = result) as Hres.
  { destruct HI' as [_ _ _ I4 _ _]. destruct (generatedCertificate s'); [|done].
    by destruct (bool_decide_reflect (step s' = result)). }
  assert (step s <> result) as Hne.
  { destruct HI as [_ _ _ I4 _ _]. rewrite Hnone in I4.
    by destruct (bool_decide_reflect (step s = result)). }
  split; [done|]. destruct (Henter Hres Hne) as [(url & -> & _) _]. by eexists.
Qed.

Lemma certificate_requires_all_fields_witness :
  exists s s',
    run initialState happyPath = Some s
    /\ dispatch s (RasterResolved "data:image/png;base64,BBBB") = Some s'
    /\ step s' = result
    /\ location s <> None /\ capturedImage s <> None /\ issueType s <> None.
Proof.
  destruct (run initialState happyPath) as [s|] eqn:Hrun; [|by vm_compute in Hrun].
  destruct (dispatch s (RasterResolved "data:image/png;base64,BBBB"))
    as [s'|] eqn:Hd;
    [|vm_compute in Hrun; injection Hrun as <-; by vm_compute in Hd].
  exists s, s'.
  assert (step s' = result) as Hres
    by (vm_compute in Hrun; injection Hrun as <-; vm_compute in Hd;
        by injection Hd as <-).
  assert (step s <> result) as Hne
    by (vm_compute in Hrun; by injection Hrun as <-).
  destruct (certificate_requires_all_fields s _ s'
              (run_reachable _ _ _ reachable_initial Hrun) Hd)
    as (_ & H & _).
  destruct (H Hres Hne) as (_ & H1 & H2 & H3). by split_and!.
Defined.

(** C5 fails on the code.  When [getContext("2d")] returns [null],
    [handleCapture] stores no frame, sets no error message and moves on to
    the generating step, where no event is offered any more; when the
    reverse-geocoding request fails, nothing is set either and the page
    stays in the capture step with the camera stream live. *)
Theorem frame_capture_failure_is_swallowed :
  (exists s,
      run initialState
        [ClickReport; ClickIssue "Pothole"; CameraGranted 1 true;
         PositionFix (28 # 1) (77 # 1);
         GeocodeResponse (value "123 Main St") (value "Punjab");
         ClickCapture None] = Some s
      /\ step s = generating /\ error s = "" /\ capturedImage s = None
      /\ forall e, dispatch s e = None)
  /\ (exists s,
         run initialState
           [ClickReport; ClickIssue "Pothole"; CameraGranted 1 true;
            PositionFix (28 # 1) (77 # 1); GeocodeFailed] = Some s
         /\ step s = capture /\ error s = "" /\ liveStreams s = [1%nat]
         /\ forall e, dispatch s e = None).
Proof.
  split; (eexists; split; [vm_compute; reflexivity|]; split_and!; try done;
          intros e; by destruct e).
Qed.

(** C6: a failure of the position request, in a state where the request is
    pending, leads to the initial step with the camera stream stopped and
    the message of its cause set; the messages of the three causes
    differ. *)
Theorem geolocation_failure_returns_to_idle (s : State) (code : Z) :
  reachable s ->
  pending s = AwaitPosition ->
  step s = capture
  /\ (exists s',
         dispatch s (PositionError code) = Some s'
         /\ step s' = initial
         /\ streamRef s' = None /\ liveStreams s' = []
         /\ pending s' = Quiescent
         /\ error s' = geolocationErrorMessage code)
  /\ geolocationErrorMessage 1
     = "Location access was denied. Please grant permission in your browser settings."
  /\ geolocationErrorMessage 2
     = "Location information is unavailable. Please check your network connection or try again."
  /\ geolocationErrorMessage 3
     = "Failed to get your location in time. Please check your network connection and try again."
  /\ geolocationErrorMessage 1 <> geolocationErrorMessage 2
  /\ geolocationErrorMessage 1 <> geolocationErrorMessage 3
  /\ geolocationErrorMessage 2 <> geolocationErrorMessage 3.
Proof.
  intros Hs Hpd. destruct (reachable_Inv s Hs) as [I1 _ _ _ I5 _].
  rewrite Hpd in I1.
  assert (step s = capture) as Hst by by destruct (step s).
  split; [done|]. split; [|by split_and!].
  eexists. split.
  - unfold dispatch, handle. rewrite Hpd. reflexivity.
  - unfold depsChanged, onPositionError. rewrite stopCamera_eq. simpl.
    rewrite Hst. simpl. unfold generateEffect. simpl. split_and!; try done.
    rewrite I5. destruct (streamRef s); simpl; by rewrite ?Nat.eqb_refl.
Qed.

Lemma geolocation_failure_returns_to_idle_witness :
  exists s s',
    run initialState [ClickReport; ClickIssue "Pothole"; CameraGranted 1 true]
    = Some s
    /\ dispatch s (PositionError 3) = Some s'
    /\ step s' = initial /\ liveStreams s' = []
    /\ error s'
       = "Failed to get your location in time. Please check your network connection and try again.".
Proof.
  destruct (run initialState [ClickReport; ClickIssue "Pothole"; CameraGranted 1 true])
    as [s|] eqn:Hrun; [|by vm_compute in Hrun].
  assert (pending s = AwaitPosition) as Hpd
    by (vm_compute in Hrun; by injection Hrun as <-).
  destruct (geolocation_failure_returns_to_idle s 3
              (run_reachable _ _ _ reachable_initial Hrun) Hpd)
    as (_ & (s' & Hd & H1 & H2 & H3 & H4 & H5) & _).
  exists s, s'. by split_and!.
Defined.

(** What [handleReset] does to every field. *)
Lemma handleReset_fields (s : State) :
  let s' := handleReset s in
  step s' = initial /\ location s' = None /\ error s' = ""
  /\ capturedImage s' = None /\ generatedCertificate s' = None
  /\ issueType s' = None /\ streamRef s' = None
  /\ cmImageUrl s' = cmImageUrl s
  /\ loadingMessage s' = loadingMessage s
  /\ isSharing s' = isSharing s
  /\ pending s' = pending s.
Proof. cbn zeta. unfold handleReset. rewrite stopCamera_eq. by simpl. Qed.

(** C7 fails on the code.  After a session that matched the region
    "Punjab", the reset clears the five fields and the camera stream but
    leaves [cmImageUrl] set, so the session is not back in its initial
    state. *)
Theorem reset_leaves_region_image :
  exists s s',
    run initialState (happyPath ++ [RasterResolved "data:image/png;base64,BBBB"])%list
    = Some s
    /\ step s = result
    /\ dispatch s ClickReset = Some s'
    /\ s' = handleReset s
    /\ step s' = initial /\ location s' = None /\ capturedImage s' = None
    /\ issueType s' = None /\ generatedCertificate s' = None /\ error s' = ""
    /\ streamRef s' = None /\ liveStreams s' = []
    /\ cmImageUrl s' = lookup CM_DATA "Punjab"
    /\ cmImageUrl s' <> None
    /\ s' <> initialState.
Proof.
  eexists. eexists. split; [vm_compute; reflexivity|].
  split; [done|]. split; [vm_compute; reflexivity|].
  split; [by vm_compute|].
  split_and!; try done.
Qed.

End OrchestratorClaims.

(** * Further properties *)

(** ** Insensitivity of the matcher *)

Section Insensitivity.

Implicit Types (s l r x : string) (c : ascii).

Lemma lowerChar_ws c : isWhiteSpace c = true -> lowerChar c = c.
Proof.
  destruct c as [[] [] [] [] [] [] [] []]; vm_compute; intros H;
    first [reflexivity | discriminate H].
Qed.

Lemma lowerChar_idem c : lowerChar (lowerChar c) = lowerChar c.
Proof. destruct c as [[] [] [] [] [] [] [] []]; reflexivity. Qed.

Lemma lowerChar_amp c : (code (lowerChar c) =? 38)%N = (code c =? 38)%N.
Proof. destruct c as [[] [] [] [] [] [] [] []]; reflexivity. Qed.

Lemma ws_not_amp c : isWhiteSpace c = true -> (code c =? 38)%N = false.
Proof.
  destruct c as [[] [] [] [] [] [] [] []]; vm_compute; intros H;
    first [reflexivity | discriminate H].
Qed.

Lemma toLowerCase_app x r : toLowerCase (x ++ r) = toLowerCase x ++ toLowerCase r.
Proof. induction x as [|c x IH]; simpl; [done|]. by rewrite IH. Qed.

Lemma replaceAmp_app x r : replaceAmp (x ++ r) = replaceAmp x ++ replaceAmp r.
Proof.
  induction x as [|c x IH]; simpl; [done|].
  destruct (code c =? 38)%N; simpl; by rewrite IH.
Qed.

Lemma toLowerCase_ws l : allWhiteSpace l = true -> toLowerCase l = l.
Proof.
  induction l as [|c l IH]; simpl; [done|].
  intros [Hc Hl]%andb_true_iff. by rewrite (lowerChar_ws c Hc), IH.
Qed.

Lemma replaceAmp_ws l : allWhiteSpace l = true -> replaceAmp l = l.
Proof.
  induction l as [|c l IH]; simpl; [done|].
  intros [Hc Hl]%andb_true_iff. by rewrite (ws_not_amp c Hc), IH.
Qed.

Lemma toLowerCase_idem s : toLowerCase (toLowerCase s) = toLowerCase s.
Proof. induction s as [|c s IH]; simpl; [done|]. by rewrite lowerChar_idem, IH. Qed.

Lemma toLowerCase_replaceAmp s :
  toLowerCase (replaceAmp s) = replaceAmp (toLowerCase s).
Proof.
  induction s as [|c s IH]; simpl; [done|].
  rewrite lowerChar_amp. destruct (code c =? 38)%N; simpl; by rewrite IH.
Qed.

Lemma replaceAmp_idem s : replaceAmp (replaceAmp s) = replaceAmp s.
Proof.
  induction s as [|c s IH]; simpl; [done|].
  destruct (code c =? 38)%N eqn:E; simpl; rewrite ?E, IH; done.
Qed.

Lemma trimStart_ws l : allWhiteSpace l = true -> trimStart l = "".
Proof.
  induction l as [|c l IH]; simpl; [done|].
  intros [-> Hl]%andb_true_iff. by apply IH.
Qed.

Lemma trimEnd_ws r : allWhiteSpace r = true -> trimEnd r = "".
Proof.
  induction r as [|c r IH]; simpl; [done|].
  intros [Hc Hr]%andb_true_iff. by rewrite (IH Hr), Hc.
Qed.

Lemma trimStart_ws_app l x : allWhiteSpace l = true -> trimStart (l ++ x) = trimStart x.
Proof.
  induction l as [|c l IH]; simpl; [done|].
  intros [-> Hl]%andb_true_iff. by apply IH.
Qed.

Lemma trimEnd_app_ws x r : allWhiteSpace r = true -> trimEnd (x ++ r) = trimEnd x.
Proof.
  intros Hr. induction x as [|c x IH]; simpl; [by apply trimEnd_ws|]. by rewrite IH.
Qed.

Lemma trimStart_app x r :
  trimStart (x ++ r) = if allWhiteSpace x then trimStart r else trimStart x ++ r.
Proof.
  induction x as [|c x IH]; simpl; [done|].
  destruct (isWhiteSpace c); simpl; [apply IH|done].
Qed.

Lemma trim_ws_around l x r :
  allWhiteSpace l = true -> allWhiteSpace r = true -> trim (l ++ x ++ r) = trim x.
Proof.
  intros Hl Hr. unfold trim. rewrite (trimStart_ws_app l _ Hl), trimStart_app.
  destruct (allWhiteSpace x) eqn:Hx.
  - by rewrite (trimStart_ws r Hr), (trimStart_ws x Hx).
  - by apply trimEnd_app_ws.
Qed.

Lemma normalizeName_ws_around l s r :
  allWhiteSpace l = true -> allWhiteSpace r = true ->
  normalizeName (l ++ s ++ r) = normalizeName s.
Proof.
  intros Hl Hr. unfold normalizeName.
  rewrite !toLowerCase_app, !replaceAmp_app.
  rewrite (toLowerCase_ws l Hl), (toLowerCase_ws r Hr).
  rewrite (replaceAmp_ws l Hl), (replaceAmp_ws r Hr).
  by apply trim_ws_around.
Qed.

Lemma normalizeName_replaceAmp s : normalizeName (replaceAmp s) = normalizeName s.
Proof.
  unfold normalizeName. by rewrite toLowerCase_replaceAmp, replaceAmp_idem.
Qed.

Lemma truthy_app_mid l s r : truthy s = true -> truthy (l ++ s ++ r) = true.
Proof. destruct l; [destruct s|]; done. Qed.

Lemma truthy_toLowerCase s : truthy (toLowerCase s) = truthy s.
Proof. by destruct s. Qed.

Lemma truthy_replaceAmp s : truthy (replaceAmp s) = truthy s.
Proof. destruct s as [|c s]; simpl; [done|]. by destruct (code c =? 38)%N. Qed.

(** Inputs with the same normalized name are answered alike by both
    functions and by their combination. *)
Lemma matcher_by_normalized s s' :
  truthy s = true -> truthy s' = true ->
  normalizeName s = normalizeName s' ->
  getCMImageUrl (value s) = getCMImageUrl (value s')
  /\ getCMImageUrl2 (value s) = getCMImageUrl2 (value s')
  /\ imgUrl (value s) = imgUrl (value s').
Proof.
  intros Hs Hs' Hn.
  destruct (imgUrl_by_normalized s s' Hs Hs' Hn) as [H1 H2].
  split; [done|]. split; [|done].
  by apply getCMImageUrl2_by_normalized.
Qed.

(** X1: the answer of the matcher does not depend on the case of the letters,
    on white space around the name, or on whether "and" is written "&". *)
Theorem matcher_insensitive (s s' l r : string) :
  s <> "" -> s' <> "" ->
  toLowerCase s = toLowerCase s' ->
  allWhiteSpace l = true -> allWhiteSpace r = true ->
  (getCMImageUrl (value s') = getCMImageUrl (value s)
   /\ getCMImageUrl2 (value s') = getCMImageUrl2 (value s)
   /\ imgUrl (value s') = imgUrl (value s))
  /\ (getCMImageUrl (value (l ++ s ++ r)) = getCMImageUrl (value s)
      /\ getCMImageUrl2 (value (l ++ s ++ r)) = getCMImageUrl2 (value s)
      /\ imgUrl (value (l ++ s ++ r)) = imgUrl (value s))
  /\ (getCMImageUrl (value (replaceAmp s)) = getCMImageUrl (value s)
      /\ getCMImageUrl2 (value (replaceAmp s)) = getCMImageUrl2 (value s)
      /\ imgUrl (value (replaceAmp s)) = imgUrl (value s)).
Proof.
  intros Hs Hs' Hcase Hl Hr.
  apply truthy_true in Hs. apply truthy_true in Hs'.
  split; [|split].
  - apply matcher_by_normalized; try done.
    unfold normalizeName. by rewrite Hcase.
  - apply matcher_by_normalized; try done.
    + by apply truthy_app_mid.
    + by apply normalizeName_ws_around.
  - apply matcher_by_normalized; try done.
    + by rewrite truthy_replaceAmp.
    + apply normalizeName_replaceAmp.
Qed.

Lemma matcher_insensitive_witness :
  imgUrl (value "JAMMU & KASHMIR") = imgUrl (value "Jammu & Kashmir")
  /\ imgUrl (value "  Jammu & Kashmir ") = imgUrl (value "Jammu & Kashmir")
  /\ imgUrl (value "Jammu and Kashmir") = imgUrl (value "Jammu & Kashmir").
Proof.
  destruct (matcher_insensitive "Jammu & Kashmir" "JAMMU & KASHMIR" "  " " ")
    as ((_ & _ & H1) & (_ & _ & H2) & (_ & _ & H3));
    try discriminate; try reflexivity.
  split; [exact H1|]. split; [exact H2|exact H3].
Defined.

End Insensitivity.

(** ** Edge behaviour of the two matching functions *)

Section MatcherEdges.

Local Open Scope Q_scope.

Lemma find_exact_key n k :
  find (isExactMatch n) (keysOf CM_DATA) = Some k ->
  In k (keysOf CM_DATA) /\ normalizeName k = n.
Proof.
  intros H. apply find_some in H as [Hin H]. split; [done|].
  by apply String.eqb_eq.
Qed.

Lemma only_first_key_within :
  Forall (fun k => includes "andhra pradesh" (normalizeName k) = true ->
                   k = "Andhra Pradesh")
         (keysOf CM_DATA).
Proof.
  unfold keysOf, CM_DATA. cbn [map fst].
  repeat (constructor;
          [vm_compute; intros H; first [reflexivity | discriminate H]|]).
  constructor.
Qed.

Lemma normalizeName_blank s : allWhiteSpace s = true -> normalizeName s = "".
Proof.
  intros H. unfold normalizeName, trim.
  by rewrite (toLowerCase_ws s H), (replaceAmp_ws s H), (trimStart_ws s H).
Qed.

Lemma first_key_absorbs s :
  truthy s = true ->
  includes "andhra pradesh" (normalizeName s) = true ->
  getCMImageUrl (value s) = lookup CM_DATA "Andhra Pradesh".
Proof.
  intros Hs Hin. unfold getCMImageUrl, getCMImageUrl_in. rewrite Hs. cbn [negb].
  set (n := normalizeName s) in *.
  assert (lookup CM_DATA "Andhra Pradesh"
          = Some "https://upload.wikimedia.org/wikipedia/commons/a/a8/The_portrait_of_CM_Shri_Nara_Chandrababu_Naidu.jpg")
    as Hl by (by vm_compute).
  destruct (find (isExactMatch n) (keysOf CM_DATA)) as [k|] eqn:E.
  - apply find_exact_key in E as [Hk Hn].
    apply list_elem_of_In in Hk.
    rewrite <- Hn in Hin.
    rewrite (proj1 (Forall_forall _ _) only_first_key_within k Hk Hin).
    cbn [andLookup truthy]. by rewrite Hl.
  - cbn [andLookup usable].
    assert (find (isPartialMatch n) (keysOf CM_DATA) = Some "Andhra Pradesh") as ->.
    { unfold keysOf, CM_DATA. cbn [map fst find].
      unfold isPartialMatch at 1.
      change (normalizeName "Andhra Pradesh") with "andhra pradesh".
      by rewrite Hin. }
    cbn [andLookup truthy]. by rewrite Hl.
Qed.

(** X2: the substring pass answers with the first catalog key every input
    whose normalized name lies inside that key's name, such as a blank
    input. *)
Theorem first_key_answers_blank_and_fragments (s : string) :
  s <> "" ->
  allWhiteSpace s = true \/ includes "andhra pradesh" (normalizeName s) = true ->
  getCMImageUrl (value s) = lookup CM_DATA "Andhra Pradesh"
  /\ imgUrl (value s) = lookup CM_DATA "Andhra Pradesh"
  /\ lookup CM_DATA "Andhra Pradesh" <> None.
Proof.
  intros Hs H. apply truthy_true in Hs.
  assert (includes "andhra pradesh" (normalizeName s) = true) as Hin.
  { destruct H as [H|H]; [|done]. by rewrite (normalizeName_blank s H). }
  pose proof (first_key_absorbs s Hs Hin) as Hg.
  split; [done|]. split; [|by vm_compute].
  unfold imgUrl, imgUrl_in. fold getCMImageUrl. rewrite Hg. by vm_compute.
Qed.

Lemma first_key_answers_blank_and_fragments_witness :
  getCMImageUrl (value " ") = lookup CM_DATA "Andhra Pradesh"
  /\ getCMImageUrl (value "Pradesh") = lookup CM_DATA "Andhra Pradesh".
Proof.
  split.
  - apply (first_key_answers_blank_and_fragments " "); [done|by left].
  - apply (first_key_answers_blank_and_fragments "Pradesh"); [done|by right].
Defined.

Lemma getCMImageUrl2_by_tokens (catalog : Catalog) (s s' : string) :
  truthy s = true -> truthy s' = true ->
  normalizeAndTokenize s = normalizeAndTokenize s' ->
  getCMImageUrl2_in catalog (value s) = getCMImageUrl2_in catalog (value s').
Proof. intros Hs Hs' Ht. unfold getCMImageUrl2_in. by rewrite Hs, Hs', Ht. Qed.

Lemma catalog_keys_fuzzy :
  Forall (fun entry =>
            (size (normalizeAndTokenize (fst entry)) =? 0)%nat = false
            /\ getCMImageUrl2 (value (fst entry)) = usable (Some (snd entry)))
         CM_DATA.
Proof.
  unfold CM_DATA.
  repeat (constructor; [split; vm_compute; reflexivity|]).
  constructor.
Qed.

(** X3: an input with exactly the words of a catalog key, in any order and
    with any punctuation or digits around them, gets that key's image from
    the token-overlap function ([null] when the key has no image). *)
Theorem same_words_as_key (s key img : string) :
  In (key, img) CM_DATA ->
  normalizeAndTokenize s = normalizeAndTokenize key ->
  getCMImageUrl2 (value s) = usable (Some img).
Proof.
  intros Hin Ht. apply list_elem_of_In in Hin.
  destruct (proj1 (Forall_forall _ _) catalog_keys_fuzzy _ Hin) as [Hz Hk].
  cbn [fst snd] in Hz, Hk. rewrite <- Hk.
  assert (truthy key = true) as Hkey.
  { apply CM_DATA_keys_truthy. change key with (fst (key, img)).
    apply in_map. by apply list_elem_of_In. }
  destruct s as [|c s]; [rewrite <- Ht in Hz; by vm_compute in Hz|].
  by apply getCMImageUrl2_by_tokens.
Qed.

Lemma same_words_as_key_witness :
  getCMImageUrl2 (value "Kashmir (and) Jammu, 190001")
  = Some "https://upload.wikimedia.org/wikipedia/commons/6/68/Omar_Abdullah%2C_Chief_Minister_of_Jammu_%26_Kashmir.jpg".
Proof.
  apply (same_words_as_key "Kashmir (and) Jammu, 190001" "Jammu & Kashmir"
           "https://upload.wikimedia.org/wikipedia/commons/6/68/Omar_Abdullah%2C_Chief_Minister_of_Jammu_%26_Kashmir.jpg").
  - do 10 right; left; reflexivity.
  - vm_compute. reflexivity.
Defined.

Lemma Zpos_of_nat n : (0 < n)%nat -> Zpos (Pos.of_nat n) = Z.of_nat n.
Proof. intros H. rewrite <- (Nat2Pos.id n) at 2 by lia. by rewrite positive_nat_Z. Qed.

(** X4: the score lies between 0 and 1; it is 1 exactly for equal word
    sets and 0 exactly for disjoint ones. *)
Theorem jaccard_range (stateWords keyWords : gset string) :
  stateWords <> ∅ ->
  0 <= jaccard stateWords keyWords <= 1
  /\ (jaccard stateWords keyWords == 1 <-> stateWords = keyWords)
  /\ (jaccard stateWords keyWords == 0 <-> stateWords ∩ keyWords = ∅).
Proof.
  intros Hne. rewrite jaccard_similarity. unfold similarity_spec.
  set (A := stateWords). set (B := keyWords).
  assert (A ∩ B ⊆ A ∪ B) as Hsub by (intros w; rewrite elem_of_intersection, elem_of_union; tauto).
  pose proof (subseteq_size _ _ Hsub) as Hle.
  assert (0 < size (A ∪ B))%nat as Hpos.
  { destruct (size (A ∪ B)) eqn:E; [|lia].
    apply size_empty_inv, leibniz_equiv in E. exfalso. apply Hne.
    apply set_eq. intros w. rewrite elem_of_empty. split; [|done].
    intros Hw. assert (w ∈ A ∪ B) as Hu by (apply elem_of_union; by left).
    rewrite E in Hu. by apply elem_of_empty in Hu. }
  unfold Qle, Qeq. cbn [Qnum Qden]. rewrite (Zpos_of_nat _ Hpos).
  split; [lia|]. split.
  - split.
    + intros H. assert (size (A ∪ B) <= size (A ∩ B))%nat as Hge by lia.
      pose proof (set_subseteq_size_equiv _ _ Hsub Hge) as Heq.
      apply leibniz_equiv in Heq.
      apply set_eq. intros w. split; intros Hw.
      * assert (w ∈ A ∪ B) as Hu by (apply elem_of_union; by left).
        rewrite <- Heq in Hu. by apply elem_of_intersection in Hu as [_ ?].
      * assert (w ∈ A ∪ B) as Hu by (apply elem_of_union; by right).
        rewrite <- Heq in Hu. by apply elem_of_intersection in Hu as [? _].
    + intros <-. fold A. rewrite (idemp_L (∩) A), (idemp_L (∪) A). lia.
  - split.
    + intros H. assert (size (A ∩ B) = 0)%nat as Hz by lia.
      by apply size_empty_inv, leibniz_equiv in Hz.
    + intros ->. rewrite size_empty. lia.
Qed.

Lemma jaccard_range_witness :
  jaccard (normalizeAndTokenize "Goa") (normalizeAndTokenize "goa!") == 1.
Proof.
  assert (normalizeAndTokenize "Goa" <> ∅) as H by (by vm_compute).
  destruct (jaccard_range (normalizeAndTokenize "Goa") (normalizeAndTokenize "goa!") H)
    as (_ & H1 & _).
  apply H1. vm_compute. reflexivity.
Defined.

Lemma catalog_keys_short :
  Forall (fun k => (size (normalizeAndTokenize k) <=? 3)%nat = true) (keysOf CM_DATA).
Proof.
  unfold keysOf, CM_DATA. cbn [map fst].
  repeat (constructor; [vm_compute; reflexivity|]).
  constructor.
Qed.

(** X5: an input of more than seven distinct words never gets an image from
    the token-overlap function: no catalog key has more than three words,
    so the score stays below 0.4. *)
Theorem long_input_never_fuzzy_matches (s : string) :
  (8 <= size (normalizeAndTokenize s))%nat ->
  getCMImageUrl2 (value s) = None.
Proof.
  intros Hlong.
  destruct (token_overlap_in CM_DATA s) as (_ & Hfirst & Hzero & _ & Hnone).
  apply Hnone. clear Hnone.
  set (W := normalizeAndTokenize s) in *.
  set (best := bestMatchOver W (keysOf CM_DATA)) in *.
  destruct (Qlt_le_dec 0 (score best)) as [Hpos|Hle].
  - destruct (Hfirst Hpos) as (pre & post & Hks & Hs & _).
    assert (key best ∈ keysOf CM_DATA) as Hin.
    { rewrite Hks. apply elem_of_app. right. by left. }
    pose proof (proj1 (Forall_forall _ _) catalog_keys_short _ Hin) as Hshort.
    apply Nat.leb_le in Hshort.
    rewrite Hs. unfold scoreOf. rewrite jaccard_similarity. unfold similarity_spec.
    set (K := normalizeAndTokenize (key best)) in *.
    assert (size (W ∩ K) <= size K)%nat as Hi
      by (apply subseteq_size; intros w; rewrite elem_of_intersection; tauto).
    assert (size W <= size (W ∪ K))%nat as Hu
      by (apply subseteq_size; intros w; rewrite elem_of_union; tauto).
    unfold Qlt, SIMILARITY_THRESHOLD. cbn [Qnum Qden].
    rewrite Zpos_of_nat by lia. lia.
  - rewrite (Hzero Hle). by vm_compute.
Qed.

Lemma long_input_never_fuzzy_matches_witness :
  getCMImageUrl2 (value "west bengal kolkata north south east central zone") = None.
Proof.
  apply long_input_never_fuzzy_matches. vm_compute. lia.
Defined.

End MatcherEdges.

(** ** Further properties of the capture orchestrator *)

Section OrchestratorProperties.

Lemma Inv_camera_free s :
  Inv s -> step s <> capture -> liveStreams s = [] /\ streamRef s = None.
Proof.
  intros [_ _ _ _ I5 I6] Hne. rewrite I5.
  destruct (streamRef s); [by destruct I6|done].
Qed.

(** The effect that follows a handler changes nothing but what is
    pending. *)
Lemma dispatch_handle s e s' :
  dispatch s e = Some s' ->
  exists s1, handle s e = Some s1 /\ step s' = step s1.
Proof.
  unfold dispatch. destruct (handle s e) as [s1|]; [|done].
  intros [= <-]. exists s1. split; [done|].
  destruct (depsChanged e s s1); [|done].
  unfold generateEffect. by destruct (_ && _).
Qed.

(** X6: at most one camera stream is live, and none outside the capture
    step. *)
Theorem camera_live_only_while_capturing (s : State) :
  reachable s ->
  (length (liveStreams s) <= 1)%nat
  /\ (step s <> capture -> liveStreams s = [] /\ streamRef s = None).
Proof.
  intros Hs. destruct (reachable_Inv s Hs) as [_ _ _ _ I5 I6].
  rewrite I5. destruct (streamRef s); split; simpl; try lia; try done.
  intros Hne. by destruct I6.
Qed.

Lemma camera_live_only_while_capturing_witness :
  exists s, run initialState happyPath = Some s
            /\ liveStreams s = [] /\ streamRef s = None.
Proof.
  destruct (run initialState happyPath) as [s|] eqn:Hrun; [|by vm_compute in Hrun].
  exists s. split; [done|].
  apply (camera_live_only_while_capturing s
           (run_reachable _ _ _ reachable_initial Hrun)).
  vm_compute in Hrun. by injection Hrun as <-.
Defined.

(** X7: the step only moves along the arrows initial -> selectIssue ->
    capture -> generating -> result, back to initial from capture,
    generating and result, or stays. *)
Theorem step_follows_diagram (s : State) (e : Event) (s' : State) :
  reachable s ->
  dispatch s e = Some s' ->
  step s' = step s \/ allowedEdge (step s) (step s') = true.
Proof. intros Hs. apply dispatch_follows_edges. by apply reachable_Inv. Qed.

Lemma step_follows_diagram_witness :
  exists s', dispatch initialState ClickReport = Some s'
             /\ (step s' = initial \/ allowedEdge initial (step s') = true).
Proof.
  destruct (dispatch initialState ClickReport) as [s'|] eqn:Hd;
    [|by vm_compute in Hd].
  exists s'. split; [done|].
  apply (step_follows_diagram initialState ClickReport s' reachable_initial Hd).
Defined.

(** X8: no error message is set while a session is in the capture,
    generating or result step. *)
Theorem no_message_during_session (s : State) :
  reachable s ->
  step s = capture \/ step s = generating \/ step s = result ->
  error s = "".
Proof.
  intros Hs H. destruct (reachable_SessionInv s Hs) as [J1 _ _ _ _ _].
  by destruct H as [H|[H|H]]; rewrite H in J1.
Qed.

Lemma no_message_during_session_witness :
  exists s, run initialState happyPath = Some s /\ error s = "".
Proof.
  destruct (run initialState happyPath) as [s|] eqn:Hrun; [|by vm_compute in Hrun].
  exists s. split; [done|].
  apply (no_message_during_session s (run_reachable _ _ _ reachable_initial Hrun)).
  right; left. vm_compute in Hrun. by injection Hrun as <-.
Defined.

(** X9: a stored location has a non-empty address, a stored region image
    is a non-empty URL of the catalog, and from the capture step on the
    issue type is one of the five offered. *)
Theorem report_fields_well_formed (s : State) :
  reachable s ->
  (forall l, location s = Some l -> address l <> "")
  /\ (forall url, cmImageUrl s = Some url ->
                  url <> "" /\ exists k, In (k, url) CM_DATA)
  /\ (step s <> initial -> step s <> selectIssue ->
      exists type, issueType s = Some type /\ In type issueTypes).
Proof.
  intros Hs. destruct (reachable_SessionInv s Hs) as [_ J2 J3 J4 _ _].
  split_and!.
  - intros l Hl. rewrite Hl in J3. by apply truthy_true.
  - intros url Hu. by rewrite Hu in J4.
  - intros H1 H2. by destruct (step s).
Qed.

Lemma report_fields_well_formed_witness :
  exists s, run initialState happyPath = Some s
            /\ (forall l, location s = Some l -> address l <> "").
Proof.
  destruct (run initialState happyPath) as [s|] eqn:Hrun; [|by vm_compute in Hrun].
  exists s. split; [done|].
  apply (report_fields_well_formed s (run_reachable _ _ _ reachable_initial Hrun)).
Defined.

(** X10: the capture button can be clicked only with a live camera stream,
    a resolved location and nothing pending; the click stops the camera
    and moves to the generating step. *)
Theorem capture_needs_camera_and_location
    (s : State) (context : option string) (s' : State) :
  reachable s ->
  dispatch s (ClickCapture context) = Some s' ->
  streamRef s <> None /\ location s <> None /\ pending s = Quiescent
  /\ step s' = generating /\ streamRef s' = None /\ liveStreams s' = [].
Proof.
  intros Hs Hd.
  pose proof (reachable_SessionInv s Hs) as [_ _ _ _ J5 _].
  pose proof (reachable_Inv s' (reachable_dispatch _ _ _ Hs Hd)) as HI'.
  destruct (dispatch_handle _ _ _ Hd) as (s1 & Hh & Hst').
  unfold handle in Hh.
  destruct (bool_decide_reflect (step s = capture)) as [Hst|]; [|done].
  destruct (isSome (location s)) eqn:Hl; [|done].
  destruct (truthy (loadingMessage s)) eqn:Hm; [done|].
  rewrite Hst in J5. destruct J5 as [_ J5]. destruct (J5 eq_refl) as (Hr & _ & Hq).
  cbn [andb negb] in Hh. injection Hh as <-.
  assert (step s' = generating) as Hgen.
  { rewrite Hst'. unfold handleCapture, videoRef_current.
    destruct (bool_decide_reflect (step s = capture)); [|done].
    rewrite stopCamera_eq. by destruct context. }
  destruct (Inv_camera_free s' HI') as [H1 H2]; [by rewrite Hgen|].
  split_and!; try done.
  - by destruct (streamRef s).
  - by destruct (location s).
Qed.

Lemma capture_needs_camera_and_location_witness :
  exists s s',
    run initialState
      [ClickReport; ClickIssue "Pothole"; CameraGranted 1 true;
       PositionFix (28 # 1) (77 # 1);
       GeocodeResponse (value "123 Main St") (value "Punjab")] = Some s
    /\ dispatch s (ClickCapture None) = Some s'
    /\ streamRef s <> None /\ liveStreams s' = [].
Proof.
  destruct (run initialState
              [ClickReport; ClickIssue "Pothole"; CameraGranted 1 true;
               PositionFix (28 # 1) (77 # 1);
               GeocodeResponse (value "123 Main St") (value "Punjab")])
    as [s|] eqn:Hrun; [|by vm_compute in Hrun].
  destruct (dispatch s (ClickCapture None)) as [s'|] eqn:Hd;
    [|vm_compute in Hrun; injection Hrun as <-; by vm_compute in Hd].
  exists s, s'.
  destruct (capture_needs_camera_and_location s None s'
              (run_reachable _ _ _ reachable_initial Hrun) Hd)
    as (H1 & _ & _ & _ & _ & H2).
  by split_and!.
Defined.

(** *** The events of a session without failure, one by one *)

Lemma effect_skipped e s s1 :
  step s1 <> generating ->
  (if depsChanged e s s1 then generateEffect s1 else s1) = s1.
Proof.
  intros H. destruct (depsChanged e s s1); [|done].
  unfold generateEffect. by destruct (bool_decide_reflect (step s1 = generating)).
Qed.

Lemma dispatch_ClickReport s :
  step s = initial -> dispatch s ClickReport = Some (setStep selectIssue s).
Proof.
  intros Hst. unfold dispatch, handle. rewrite Hst. simpl.
  by rewrite effect_skipped.
Qed.

Lemma dispatch_ClickIssue s type :
  step s = selectIssue -> In type issueTypes ->
  dispatch s (ClickIssue type) = Some (startCaptureSequence type s).
Proof.
  intros Hst Hin. unfold dispatch, handle. rewrite Hst.
  rewrite (bool_decide_eq_true_2 (type ∈ issueTypes)) by by apply list_elem_of_In.
  simpl. by rewrite effect_skipped.
Qed.

Lemma dispatch_CameraGranted s stream :
  pending s = AwaitCamera -> step s = capture ->
  dispatch s (CameraGranted stream true)
  = Some (startCaptureSequence_stream stream true
            (setLiveStreams (stream :: liveStreams s) s)).
Proof.
  intros Hpd Hst. unfold dispatch, handle. rewrite Hpd.
  rewrite effect_skipped; [done|]. simpl. by rewrite Hst.
Qed.

Lemma dispatch_PositionFix s lat lon :
  pending s = AwaitPosition -> step s = capture ->
  dispatch s (PositionFix lat lon) = Some (onPosition lat lon s).
Proof.
  intros Hpd Hst. unfold dispatch, handle. rewrite Hpd.
  rewrite effect_skipped; [done|]. simpl. by rewrite Hst.
Qed.

Lemma dispatch_GeocodeResponse s lat lon display_name state :
  pending s = AwaitGeocode lat lon -> step s = capture ->
  dispatch s (GeocodeResponse display_name state)
  = Some (onGeocoded lat lon display_name state s).
Proof.
  intros Hpd Hst. unfold dispatch, handle. rewrite Hpd.
  rewrite effect_skipped; [done|]. unfold onGeocoded. simpl. by rewrite Hst.
Qed.

Lemma dispatch_ClickCapture s frame :
  step s = capture -> isSome (location s) = true -> loadingMessage s = "" ->
  truthy frame = true ->
  dispatch s (ClickCapture (Some frame))
  = Some (await AwaitTimer (handleCapture (Some frame) s)).
Proof.
  intros Hst Hl Hm Hf. unfold dispatch, handle. rewrite Hst, Hl, Hm. simpl.
  unfold depsChanged, handleCapture, videoRef_current. rewrite stopCamera_eq, Hst.
  simpl. unfold generateEffect. simpl. by rewrite Hf, Hl.
Qed.

Lemma dispatch_TimerFired s :
  pending s = AwaitTimer -> step s = generating ->
  isSome (location s) = true -> truthyOpt (capturedImage s) = true ->
  truthyOpt (issueType s) = true ->
  dispatch s (TimerFired true)
  = Some (await AwaitRaster
            (setLoadingMessage "Generating high-resolution image..." s)).
Proof.
  intros Hpd Hst Hl Hc Hi. unfold dispatch, handle. rewrite Hpd.
  unfold generateCertificate, certificateRef_current. rewrite Hst, Hl, Hc, Hi.
  simpl. unfold depsChanged. simpl. by rewrite !bool_decide_neq_refl.
Qed.

Lemma dispatch_RasterResolved s dataUrl :
  pending s = AwaitRaster ->
  dispatch s (RasterResolved dataUrl) = Some (generateCertificate_resolved dataUrl s).
Proof.
  intros Hpd. unfold dispatch, handle. rewrite Hpd. by rewrite effect_skipped.
Qed.

(** X11: a session in which nothing fails ends in the result step with the
    certificate the rasterizer returned, the captured frame, the chosen
    issue type, the fixed coordinates, the matched region image, no error
    message and the camera stopped. *)
Theorem full_session_yields_certificate
    (type : string) (stream : MediaStream) (lat lon : Q)
    (display_name state : nullable string) (frame dataUrl : string) :
  In type issueTypes ->
  frame <> "" ->
  exists s,
    run initialState
      [ClickReport; ClickIssue type; CameraGranted stream true;
       PositionFix lat lon; GeocodeResponse display_name state;
       ClickCapture (Some frame); TimerFired true; RasterResolved dataUrl]
    = Some s
    /\ step s = result
    /\ generatedCertificate s = Some dataUrl
    /\ capturedImage s = Some frame
    /\ issueType s = Some type
    /\ cmImageUrl s = imgUrl state
    /\ (exists addr, location s = Some (mkLocation lat lon addr) /\ addr <> "")
    /\ error s = "" /\ liveStreams s = [] /\ streamRef s = None
    /\ pending s = Quiescent.
Proof.
  intros Htype Hframe.
  assert (truthy type = true) as Htruthy
    by (simpl in Htype; by repeat destruct Htype as [<-|Htype]).
  apply truthy_true in Hframe.
  eexists. split.
  - unfold run.
    rewrite dispatch_ClickReport by reflexivity.
    rewrite dispatch_ClickIssue by (reflexivity || done).
    rewrite dispatch_CameraGranted by reflexivity.
    rewrite (dispatch_PositionFix _ lat lon) by reflexivity.
    rewrite (dispatch_GeocodeResponse _ lat lon) by reflexivity.
    rewrite dispatch_ClickCapture by (reflexivity || done).
    rewrite dispatch_TimerFired by (reflexivity || done).
    rewrite dispatch_RasterResolved by reflexivity.
    reflexivity.
  - unfold generateCertificate_resolved, handleCapture, videoRef_current,
      onGeocoded, onPosition, startCaptureSequence_stream, startCaptureSequence,
      stopCamera.
    simpl. rewrite Nat.eqb_refl. simpl.
    split_and!; try reflexivity.
    eexists. split; [reflexivity|].
    apply truthy_true. destruct display_name as [| |a]; try reflexivity.
    by destruct (truthy a) eqn:?.
Qed.

Lemma full_session_yields_certificate_witness :
  exists s,
    run initialState
      [ClickReport; ClickIssue "Garbage Dump"; CameraGranted 7 true;
       PositionFix (19 # 1) (73 # 1);
       GeocodeResponse undefined (value "Maharashtra");
       ClickCapture (Some "data:image/jpeg;base64,AA"); TimerFired true;
       RasterResolved "data:image/png;base64,BB"] = Some s
    /\ step s = result
    /\ generatedCertificate s = Some "data:image/png;base64,BB".
Proof.
  destruct (full_session_yields_certificate "Garbage Dump" 7 (19 # 1) (73 # 1)
              undefined (value "Maharashtra") "data:image/jpeg;base64,AA"
              "data:image/png;base64,BB")
    as (s & Hrun & H1 & H2 & _).
  - do 2 right; left; reflexivity.
  - discriminate.
  - exists s. split; [exact Hrun|]. split; [exact H1|exact H2].
Defined.

(** X12: in the result step [handleReset] brings every field back to its
    initial value, except the region image and the sharing flag, which it
    leaves as they are. *)
Theorem reset_restores_initial_fields (s : State) :
  reachable s ->
  step s = result ->
  handleReset s
  = mkState initial None "" None None "" (isSharing s) None (cmImageUrl s)
      None [] Quiescent.
Proof.
  intros Hs Hst.
  pose proof (reachable_Inv s Hs) as HI.
  destruct (Inv_camera_free s HI) as [Hlive Hstream]; [by rewrite Hst|].
  destruct HI as [I1 _ _ _ _ _].
  destruct (reachable_SessionInv s Hs) as [_ _ _ _ _ J6].
  rewrite Hst in I1.
  assert (pending s = Quiescent) as Hpd by by destruct (pending s).
  specialize (J6 Hst).
  destruct s as [st loc err img cert msg sh it cm sr live pd].
  simpl in *. by subst.
Qed.

Lemma reset_restores_initial_fields_witness :
  exists s,
    run initialState (happyPath ++ [RasterResolved "data:image/png;base64,BBBB"])%list
    = Some s
    /\ handleReset s
       = mkState initial None "" None None "" false None
           (lookup CM_DATA "Punjab") None [] Quiescent.
Proof.
  destruct (run initialState
              (happyPath ++ [RasterResolved "data:image/png;base64,BBBB"])%list)
    as [s|] eqn:Hrun; [|by vm_compute in Hrun].
  exists s. split; [done|].
  rewrite (reset_restores_initial_fields s
             (run_reachable _ _ _ reachable_initial Hrun)).
  - vm_compute in Hrun. by injection Hrun as <-.
  - vm_compute in Hrun. by injection Hrun as <-.
Defined.

(** X13: a failure that has a handler leaves the report untouched: the
    location, the captured frame, the issue type, the region image and the
    certificate stay as they were. *)
Theorem failures_keep_report (s : State) (e : Event) (s' : State) :
  reachable s ->
  dispatch s e = Some s' ->
  handledFailure e = true ->
  location s' = location s /\ capturedImage s' = capturedImage s
  /\ issueType s' = issueType s /\ cmImageUrl s' = cmImageUrl s
  /\ generatedCertificate s' = generatedCertificate s.
Proof. intros Hs. apply handled_failures_keep_report. by apply reachable_Inv. Qed.

Lemma failures_keep_report_witness :
  exists s s',
    run initialState happyPath = Some s
    /\ dispatch s RasterRejected = Some s'
    /\ capturedImage s' = Some "data:image/jpeg;base64,AAAA".
Proof.
  destruct (run initialState happyPath) as [s|] eqn:Hrun; [|by vm_compute in Hrun].
  destruct (dispatch s RasterRejected) as [s'|] eqn:Hd;
    [|vm_compute in Hrun; injection Hrun as <-; by vm_compute in Hd].
  exists s, s'. split; [done|]. split; [done|].
  destruct (failures_keep_report s RasterRejected s'
              (run_reachable _ _ _ reachable_initial Hrun) Hd eq_refl)
    as (_ & -> & _).
  vm_compute in Hrun. by injection Hrun as <-.
Defined.

(** X14: the page offers no event at all exactly in the states described
    by [stuck]: in the generating step with nothing pending, in the capture
    step with nothing pending while the capture button is disabled, and in
    the result step without a certificate to show. *)
Theorem stuck_states (s : State) :
  reachable s ->
  (forall e, dispatch s e = None) <-> stuck s = true.
Proof.
  intros Hreach. destruct (reachable_Inv s Hreach) as [I1 _ _ _ _ _].
  assert (forall e, dispatch s e = None <-> handle s e = None) as Hdh.
  { intros e. unfold dispatch. by destruct (handle s e). }
  unfold stuck. split.
  - intros Hall.
    assert (forall e, handle s e = None) as Hh by (intros e; by apply Hdh).
    clear Hall Hdh.
    destruct (isSharing s) eqn:Hsh.
    { specialize (Hh ShareTimers). unfold handle in Hh. by rewrite Hsh in Hh. }
    destruct (step s) eqn:Hs, (pending s) eqn:Hp; try done; simpl.
    + specialize (Hh ClickReport). unfold handle in Hh. by rewrite Hs in Hh.
    + specialize (Hh (ClickIssue "Pothole")). unfold handle in Hh.
      by rewrite Hs in Hh.
    + specialize (Hh (ClickCapture None)). unfold handle in Hh. rewrite Hs in Hh.
      simpl in Hh. by destruct (isSome (location s)), (truthy (loadingMessage s)).
    + specialize (Hh (CameraRejected "")). unfold handle in Hh. by rewrite Hp in Hh.
    + specialize (Hh (PositionError 0)). unfold handle in Hh. by rewrite Hp in Hh.
    + specialize (Hh GeocodeFailed). unfold handle in Hh. by rewrite Hp in Hh.
    + specialize (Hh (TimerFired false)). unfold handle in Hh. by rewrite Hp in Hh.
    + specialize (Hh RasterRejected). unfold handle in Hh. by rewrite Hp in Hh.
    + specialize (Hh ClickDownload). unfold handle in Hh. rewrite Hs in Hh.
      simpl in Hh. by destruct (truthyOpt (generatedCertificate s)).
  - intros Hst e. apply Hdh. clear Hdh.
    destruct (isSharing s) eqn:Hsh; [done|].
    destruct (step s) eqn:Hs, (pending s) eqn:Hp; try done; simpl in Hst.
    all: destruct e; unfold handle; rewrite ?Hs, ?Hp, ?Hsh; simpl; try done.
    + by destruct (isSome (location s)), (truthy (loadingMessage s)).
    + by destruct (truthyOpt (generatedCertificate s)).
    + by destruct (truthyOpt (generatedCertificate s)).
    + by destruct (truthyOpt (generatedCertificate s)).
Qed.

Lemma stuck_states_witness :
  exists s,
    run initialState
      [ClickReport; ClickIssue "Pothole"; CameraGranted 1 true;
       PositionFix (28 # 1) (77 # 1); GeocodeFailed] = Some s
    /\ stuck s = true.
Proof.
  destruct (run initialState
              [ClickReport; ClickIssue "Pothole"; CameraGranted 1 true;
               PositionFix (28 # 1) (77 # 1); GeocodeFailed])
    as [s|] eqn:Hrun; [|by vm_compute in Hrun].
  exists s. split; [reflexivity|].
  apply (stuck_states s (run_reachable _ _ _ reachable_initial Hrun)).
  vm_compute in Hrun. injection Hrun as <-. intros e. by destruct e.
Defined.

End OrchestratorProperties.

(** ** The issue identifier *)

Section IssueIdFacts.

Local Open Scope N_scope.

Lemma size_nat_div10 n : 10 <= n -> (N.size_nat (n / 10) < N.size_nat n)%nat.
Proof.
  intros Hn. destruct n as [|p]; [lia|].
  assert (N.pos p / 10 <= N.div2 (N.pos p)) as Hle.
  { rewrite N.div2_div. apply N.div_le_compat_l; lia. }
  assert (0 < N.pos p / 10) as Hpos by (apply N.div_str_pos; lia).
  destruct (N.pos p / 10) as [|q] eqn:Eq; [lia|].
  destruct p as [p|p|]; simpl in *; try lia.
  - assert (q <= p)%positive as H by lia.
    apply Pos.lt_eq_cases in H as [H| ->]; [|lia].
    apply Pos.size_nat_monotone in H. lia.
  - assert (q <= p)%positive as H by lia.
    apply Pos.lt_eq_cases in H as [H| ->]; [|lia].
    apply Pos.size_nat_monotone in H. lia.
Qed.

Lemma digitsFuel_enough f f' n :
  (N.size_nat n < f)%nat -> (N.size_nat n < f')%nat ->
  digitsFuel f n = digitsFuel f' n.
Proof.
  revert f' n; induction f as [|f IH]; intros f' n Hf Hf'; [lia|].
  destruct f' as [|f']; [lia|]. simpl.
  destruct (N.ltb_spec n 10) as [_|Hn]; [done|].
  pose proof (size_nat_div10 n Hn).
  rewrite (IH f' (n / 10)); [done|lia|lia].
Qed.

Lemma toString_small n : n < 10 -> toString n = String (digitChar n) "".
Proof.
  intros Hn. unfold toString. simpl.
  by destruct (N.ltb_spec n 10); [|lia].
Qed.

Lemma toString_snoc n :
  10 <= n -> toString n = (toString (n / 10) ++ String (digitChar (n mod 10)) "")%string.
Proof.
  intros Hn. unfold toString at 1. simpl.
  destruct (N.ltb_spec n 10); [lia|].
  pose proof (size_nat_div10 n Hn).
  unfold toString. by rewrite (digitsFuel_enough (N.size_nat n) (S (N.size_nat (n / 10)))) by lia.
Qed.

Lemma sliceFrom_app i x y :
  (i <= String.length x)%nat -> sliceFrom i (x ++ y) = (sliceFrom i x ++ y)%string.
Proof.
  revert i; induction x as [|c x IH]; intros [|i] Hi; simpl in *; try done; try lia.
  apply IH. lia.
Qed.

Lemma sliceFrom_all x : sliceFrom (String.length x) x = "".
Proof. induction x as [|c x IH]; [done|]. simpl. apply IH. Qed.

Lemma length_snoc x c : String.length (x ++ String c "") = S (String.length x).
Proof. induction x as [|d x IH]; simpl; [done|]. by rewrite IH. Qed.

Lemma sliceLast_snoc k x c :
  sliceLast (S k) (x ++ String c "") = (sliceLast k x ++ String c "")%string.
Proof.
  unfold sliceLast. rewrite length_snoc. simpl. apply sliceFrom_app. lia.
Qed.

Lemma sliceLast_zero x : sliceLast 0 x = "".
Proof. unfold sliceLast. rewrite Nat.sub_0_r. apply sliceFrom_all. Qed.

Lemma pow10_nonzero (k : nat) : 10 ^ N.of_nat k <> 0.
Proof. apply N.pow_nonzero. lia. Qed.

(** The last [k + 1] characters of the text of a number with more than [k]
    digits are its last [k + 1] digits. *)
Lemma sliceLast_toString k :
  forall n, 10 ^ N.of_nat k <= n ->
  sliceLast (S k) (toString n) = padDigits (S k) (n mod 10 ^ N.of_nat (S k)).
Proof.
  induction k as [|k IH]; intros n Hn.
  - change (10 ^ N.of_nat 1) with 10. change (10 ^ N.of_nat 0) with 1 in Hn.
    simpl padDigits. rewrite N.Div0.mod_mod.
    destruct (N.lt_ge_cases n 10) as [Hs|Hl].
    + rewrite (toString_small n Hs). by rewrite N.mod_small.
    + rewrite (toString_snoc n Hl), sliceLast_snoc, sliceLast_zero. done.
  - assert (10 ^ N.of_nat (S k) = 10 * 10 ^ N.of_nat k) as Hp
      by (rewrite Nat2N.inj_succ, N.pow_succ_r'; done).
    assert (10 ^ N.of_nat (S (S k)) = 10 * 10 ^ N.of_nat (S k)) as Hp'
      by (rewrite (Nat2N.inj_succ (S k)), N.pow_succ_r'; done).
    pose proof (pow10_nonzero k) as Hk0.
    assert (10 <= n) as Hl by lia.
    rewrite (toString_snoc n Hl), sliceLast_snoc.
    rewrite IH by (apply N.div_le_lower_bound; lia).
    change (padDigits (S (S k)) ?m)
      with (padDigits (S k) (m / 10) ++ String (digitChar (m mod 10)) "")%string.
    rewrite Hp'.
    rewrite (N.Div0.mod_mul_r n 10 (10 ^ N.of_nat (S k))).
    set (c := 10 ^ N.of_nat (S k)).
    assert (n mod 10 < 10) as Hd by (apply N.mod_lt; lia).
    assert ((n mod 10 + 10 * ((n / 10) mod c)) / 10 = (n / 10) mod c) as ->.
    { symmetry. apply (N.div_unique _ 10 _ (n mod 10)); lia. }
    assert ((n mod 10 + 10 * ((n / 10) mod c)) mod 10 = n mod 10) as ->.
    { symmetry. apply (N.mod_unique _ 10 ((n / 10) mod c)); lia. }
    done.
Qed.

Lemma length_padDigits k m : String.length (padDigits k m) = k.
Proof.
  revert m; induction k as [|k IH]; intros m; simpl; [done|].
  by rewrite length_snoc, IH.
Qed.

Lemma uniqueId_digits now :
  100000 <= now -> uniqueId now = ("CN-" ++ padDigits 6 (now mod 1000000))%string.
Proof.
  intros H. unfold uniqueId. f_equal.
  by rewrite (sliceLast_toString 5 now).
Qed.

(** X15: the issue identifier is "CN-" followed by the last six digits of
    the time of rendering: it has nine characters, and two times that
    differ by a multiple of 1,000,000 ms give the same identifier. *)
Theorem issue_id_repeats (now later : N) :
  100000 <= now -> now <= later ->
  (later - now) mod 1000000 = 0 ->
  uniqueId later = uniqueId now
  /\ String.length (uniqueId now) = 9%nat
  /\ uniqueId now = ("CN-" ++ padDigits 6 (now mod 1000000))%string.
Proof.
  intros Hn Hl Hm.
  rewrite (uniqueId_digits now Hn), (uniqueId_digits later) by lia.
  split; [|split; [|done]].
  - f_equal. f_equal.
    replace later with (now + (later - now)) by lia.
    rewrite <- N.Div0.add_mod_idemp_r, Hm, N.add_0_r. done.
  - change (String.length ("CN-" ++ padDigits 6 (now mod 1000000)))
      with (S (S (S (String.length (padDigits 6 (now mod 1000000)))))).
    by rewrite length_padDigits.
Qed.

Lemma issue_id_repeats_witness :
  uniqueId 1730544210123 = uniqueId 1730543210123
  /\ uniqueId 1730543210123 = "CN-210123"%string.
Proof.
  destruct (issue_id_repeats 1730543210123 1730544210123) as (H1 & _ & H2).
  - lia.
  - lia.
  - reflexivity.
  - split; [exact H1|]. rewrite H2. reflexivity.
Defined.

End IssueIdFacts.

(** ** The debug console *)

Section ConsoleFacts.

Lemma ConsoleInv_step c e : ConsoleInv c -> ConsoleInv (consoleStep c e).
Proof.
  intros (H1 & H2 & H3). destruct e as [type args timestamp| | |]; simpl.
  - unfold _addLog, ConsoleInv. simpl. rewrite length_app. simpl.
    split_and!; [lia|done|done].
  - unfold togglePanel, ConsoleInv. simpl. by rewrite H3.
  - unfold closePanel, ConsoleInv. destruct (isOpen c) eqn:E; simpl.
    + by split_and!.
    + rewrite E. by split_and!.
  - by unfold clearLogs, ConsoleInv.
Qed.

Lemma ConsoleInv_run es : ConsoleInv (consoleRun es).
Proof.
  unfold consoleRun. induction es as [|e es IH] using rev_ind; [done|].
  rewrite fold_left_app. by apply ConsoleInv_step.
Qed.

(** X16: whatever is logged, toggled, closed or cleared, the counter of the
    console shows the number of entries in the logs container, which is
    [logCount]; clearing brings it back to "0". *)
Theorem console_counter_counts_entries (es : list ConsoleEvent) :
  let c := consoleRun es in
  logCount c = length (logsContainer c)
  /\ counter c = toString (N.of_nat (length (logsContainer c)))
  /\ counter (clearLogs c) = "0"
  /\ logsContainer (clearLogs c) = []
  /\ forall type args timestamp,
       length (logsContainer (_addLog args type timestamp c))
       = S (length (logsContainer c)).
Proof.
  cbn zeta. destruct (ConsoleInv_run es) as (H1 & H2 & _).
  split_and!; try done.
  - by rewrite <- H1.
  - intros type args timestamp. simpl. rewrite length_app. simpl. lia.
Qed.

(** X17: the panel is off the screen exactly when [isOpen] is false;
    closing leaves it closed and off the screen, and closing twice is
    closing once. *)
Theorem console_panel_follows_isOpen (es : list ConsoleEvent) :
  let c := consoleRun es in
  panelOffScreen c = negb (isOpen c)
  /\ isOpen (closePanel c) = false
  /\ panelOffScreen (closePanel c) = true
  /\ closePanel (closePanel c) = closePanel c
  /\ togglePanel (togglePanel c) = c.
Proof.
  cbn zeta. destruct (ConsoleInv_run es) as (_ & _ & H3).
  destruct (consoleRun es) as [n o p l t]. simpl in *. subst.
  unfold closePanel, togglePanel. simpl.
  by destruct o.
Qed.

End ConsoleFacts.

(** ** The share link *)

Section ShareFacts.

Lemma allChars_app p x y :
  allChars p (x ++ y) = allChars p x && allChars p y.
Proof.
  induction x as [|c x IH]; simpl; [done|]. by rewrite IH, andb_assoc.
Qed.

Lemma encodeChar_encoded c : allChars isEncoded (encodeChar c) = true.
Proof. destruct c as [[] [] [] [] [] [] [] []]; reflexivity. Qed.

Lemma encodeURIComponent_encoded s :
  allChars isEncoded (encodeURIComponent s) = true.
Proof.
  induction s as [|c s IH]; simpl; [done|].
  by rewrite allChars_app, encodeChar_encoded, IH.
Qed.

Lemma allChars_occurs p c s :
  allChars p s = true -> p c = false -> occurs c s = false.
Proof.
  intros Hs Hc. induction s as [|d s IH]; simpl in *; [done|].
  apply andb_true_iff in Hs as [Hd Hs].
  destruct (Ascii.eqb_spec c d) as [->|_]; [congruence|]. by apply IH.
Qed.

(** X18: whatever the issue type and the address are, the text of the tweet
    is fully escaped in the share link: after the prefix the link holds
    only unreserved characters and percent escapes, so no ampersand, hash,
    question or equals sign, space or double quote. *)
Theorem tweet_url_escaped (issueType address : string) :
  exists text,
    tweetUrl issueType address
    = ("https://twitter.com/intent/tweet?text=" ++ text)%string
    /\ text = encodeURIComponent (tweetText issueType address)
    /\ allChars isEncoded text = true
    /\ occurs "&" text = false /\ occurs "#" text = false
    /\ occurs "?" text = false /\ occurs "=" text = false
    /\ occurs " " text = false /\ occurs (ascii_of_N 34) text = false.
Proof.
  eexists. split; [reflexivity|]. split; [reflexivity|].
  pose proof (encodeURIComponent_encoded (tweetText issueType address)) as H.
  split_and!; [done|..]; by apply (allChars_occurs isEncoded).
Qed.

Lemma tweet_url_example :
  encodeURIComponent "#a b&c" = "%23a%20b%26c"
  /\ encodeChar (ascii_of_N 233) = "%C3%A9".
Proof. by split. Qed.

(** X19: a share can be started only when none is under way: the click
    sets [isSharing], the button is then not offered again, and the timers
    of the share reset the flag. *)
Theorem share_not_reentrant (s s' : State) :
  reachable s ->
  dispatch s ClickShare = Some s' ->
  isSharing s = false /\ isSharing s' = true
  /\ dispatch s' ClickShare = None
  /\ exists s'', dispatch s' ShareTimers = Some s'' /\ isSharing s'' = false.
Proof.
  intros Hs Hd. destruct (reachable_Inv s Hs) as [_ _ I3 _ _ _].
  unfold dispatch, handle in Hd.
  destruct (bool_decide_reflect (step s = result)) as [Hst|]; [|done].
  destruct (truthyOpt (generatedCertificate s)) eqn:Hc; [|done].
  destruct (isSharing s) eqn:Hsh; [done|].
  destruct I3 as (Hl & _ & Hi); [by right|].
  cbn [andb negb] in Hd. unfold handleShare in Hd.
  rewrite Hl, Hc, Hsh, Hi in Hd. cbn [negb orb] in Hd.
  unfold depsChanged in Hd. simpl in Hd. rewrite !bool_decide_neq_refl in Hd.
  cbn [orb] in Hd. injection Hd as <-.
  split; [done|]. split; [done|]. split.
  - unfold dispatch, handle. simpl. rewrite Hst, Hc. by simpl.
  - eexists. split; [|shelve].
    unfold dispatch, handle. simpl. reflexivity.
    Unshelve. unfold depsChanged. simpl. rewrite !bool_decide_neq_refl. by simpl.
Qed.

Lemma share_not_reentrant_witness :
  exists s s',
    run initialState (happyPath ++ [RasterResolved "data:image/png;base64,BBBB"])%list
    = Some s
    /\ dispatch s ClickShare = Some s'
    /\ isSharing s' = true /\ dispatch s' ClickShare = None.
Proof.
  destruct (run initialState
              (happyPath ++ [RasterResolved "data:image/png;base64,BBBB"])%list)
    as [s|] eqn:Hrun; [|by vm_compute in Hrun].
  destruct (dispatch s ClickShare) as [s'|] eqn:Hd;
    [|vm_compute in Hrun; injection Hrun as <-; by vm_compute in Hd].
  exists s, s'.
  destruct (share_not_reentrant s s'
              (run_reachable _ _ _ reachable_initial Hrun) Hd)
    as (_ & H1 & H2 & _).
  split; [reflexivity|]. split; [exact Hd|]. split; [exact H1|exact H2].
Defined.

(** The same at a rejected camera request and at a rejected
    rasterization. *)
Lemma handled_failures_return_to_idle_witness :
  (exists s s',
      run initialState [ClickReport; ClickIssue "Other"] = Some s
      /\ dispatch s (CameraRejected "NotAllowedError") = Some s'
      /\ step s' = initial
      /\ Orchestrator.error s'
         = "Camera access was denied. Please grant permission in your browser settings.")
  /\ (exists s s',
         run initialState happyPath = Some s
         /\ dispatch s RasterRejected = Some s'
         /\ step s' = initial /\ liveStreams s' = []).
Proof.
  split.
  - destruct (run initialState [ClickReport; ClickIssue "Other"]) as [s|] eqn:Hrun;
      [|by vm_compute in Hrun].
    destruct (dispatch s (CameraRejected "NotAllowedError")) as [s'|] eqn:Hd;
      [|vm_compute in Hrun; injection Hrun as <-; by vm_compute in Hd].
    exists s, s'.
    destruct (handled_failures_return_to_idle s _ s'
                (run_reachable _ _ _ reachable_initial Hrun) Hd eq_refl)
      as (H1 & _).
    split; [reflexivity|]. split; [exact Hd|]. split; [exact H1|].
    vm_compute in Hrun. injection Hrun as <-. vm_compute in Hd.
    by injection Hd as <-.
  - destruct (run initialState happyPath) as [s|] eqn:Hrun; [|by vm_compute in Hrun].
    destruct (dispatch s RasterRejected) as [s'|] eqn:Hd;
      [|vm_compute in Hrun; injection Hrun as <-; by vm_compute in Hd].
    exists s, s'.
    destruct (handled_failures_return_to_idle s _ s'
                (run_reachable _ _ _ reachable_initial Hrun) Hd eq_refl)
      as (H1 & _ & _ & H2 & _).
    split; [reflexivity|]. split; [exact Hd|]. split; [exact H1|exact H2].
Defined.

End ShareFacts.
